(** * POSIX path manipulation (src/path.ts): model and verified properties

    The module is a port of Node's [path] (posix flavour).  Every function
    of [src/path.ts] is embedded below as a Rocq function over strings;
    JavaScript strings are modelled by [string] (sequences of 8-bit
    characters: the code only ever distinguishes the characters "/" and
    "." from all others).  Values of other JavaScript types, needed for
    the run-time type checks of [join], [resolve], [parse] and [format],
    are modelled by the type [value]; an exception is an abrupt
    completion of the small error monad [completion]. *)

From Stdlib Require Import Bool Arith ZArith Lia List Ascii String DecimalString.
Import ListNotations.

Set Implicit Arguments.

Local Open Scope list_scope.
Local Open Scope string_scope.

(** ** JavaScript strings and arrays *)

Module JS.

(** Truthiness of a string: [!s] is true exactly for the empty string. *)
Definition truthy (s : string) : bool :=
  match s with
  | EmptyString => false
  | String _ _ => true
  end.

(** [s.charAt(i)]: the one-character string at index [i], or the empty
    string when [i] is out of range. *)
Definition charAt (s : string) (i : nat) : string :=
  match get i s with
  | Some c => String c EmptyString
  | None => EmptyString
  end.

(** [s.substr(start, len)]: a negative [start] counts from the end;
    [len] omitted ([None]) means "to the end". *)
Definition substr (s : string) (start : Z) (len : option Z) : string :=
  let size := Z.of_nat (length s) in
  let from := if (start <? 0)%Z then Z.max (size + start) 0
              else Z.min start size in
  let n := match len with
           | None => (size - from)%Z
           | Some l => Z.min (Z.max l 0) (size - from)
           end in
  substring (Z.to_nat from) (Z.to_nat n) s.

(** [s.substring(start)]: a negative [start] is taken as 0. *)
Definition substring_from (s : string) (start : Z) : string :=
  let size := Z.of_nat (length s) in
  let from := Z.min (Z.max start 0) size in
  substring (Z.to_nat from) (Z.to_nat (size - from)) s.

(** [s.slice(start, end)]: negative indices count from the end. *)
Definition slice (s : string) (start stop : Z) : string :=
  let size := Z.of_nat (length s) in
  let rel i := if (i <? 0)%Z then Z.max (size + i) 0 else Z.min i size in
  let from := rel start in
  let to := rel stop in
  substring (Z.to_nat from) (Z.to_nat (Z.max (to - from) 0)) s.

(** [s.split(sep)] for a one-character separator: the pieces between
    the occurrences of [sep]; the empty string gives one empty piece. *)
Fixpoint split (sep : ascii) (s : string) : list string :=
  match s with
  | EmptyString => [EmptyString]
  | String c s' =>
      if Ascii.eqb c sep then EmptyString :: split sep s'
      else match split sep s' with
           | piece :: pieces => String c piece :: pieces
           | [] => [String c EmptyString]
           end
  end.

(** [arr.join(sep)]. *)
Definition join (sep : string) (arr : list string) : string :=
  String.concat sep arr.

(** [arr.push(x)] and [arr.pop()] on an array used as a stack. *)
Definition push (A : Type) (arr : list A) (x : A) : list A := (arr ++ [x])%list.
Definition pop (A : Type) (arr : list A) : list A := removelast arr.

(** [arr.slice(start)] and [arr.slice(start, end)], indices in range. *)
Definition array_slice (A : Type) (arr : list A) (start stop : nat) : list A :=
  firstn (stop - start) (skipn start arr).

(** JavaScript values, as far as the run-time type checks of the module
    can tell them apart.  Numbers are restricted to integers; an object
    is the list of its properties (the first binding of a key counts). *)
#[warnings="-register-all"]
Inductive value : Type :=
| VUndefined
| VNull
| VBoolean (b : bool)
| VNumber (n : Z)
| VString (s : string)
| VObject (props : list (string * value)).

Definition typeof (v : value) : string :=
  match v with
  | VUndefined => "undefined"
  | VNull => "object"
  | VBoolean _ => "boolean"
  | VNumber _ => "number"
  | VString _ => "string"
  | VObject _ => "object"
  end.

(** ToBoolean. *)
Definition truthy_value (v : value) : bool :=
  match v with
  | VUndefined | VNull => false
  | VBoolean b => b
  | VNumber n => negb (n =? 0)%Z
  | VString s => truthy s
  | VObject _ => true
  end.

(** ToString, as applied by [+] to a non-string operand. *)
Definition to_string (v : value) : string :=
  match v with
  | VUndefined => "undefined"
  | VNull => "null"
  | VBoolean true => "true"
  | VBoolean false => "false"
  | VNumber n => DecimalString.NilZero.string_of_int (Z.to_int n)
  | VString s => s
  | VObject _ => "[object Object]"
  end.

(** [o.key]: the property's value, [undefined] when there is none. *)
Fixpoint get_prop (props : list (string * value)) (key : string) : value :=
  match props with
  | [] => VUndefined
  | (k, v) :: rest => if k =? key then v else get_prop rest key
  end.

(** [a ?? b]. *)
Definition nullish (a b : value) : value :=
  match a with
  | VUndefined | VNull => b
  | _ => a
  end.

(** An element of a match array: a string, or [undefined] for a group
    that did not take part in the match. *)
Definition of_capture (c : option string) : value :=
  match c with
  | Some s => VString s
  | None => VUndefined
  end.

(** Completions: a call returns a value or throws. *)
Inductive exn : Type :=
| TypeError (message : string).

Inductive completion (A : Type) : Type :=
| Normal (a : A)
| Throw (e : exn).
Arguments Normal {A} a.
Arguments Throw {A} e.

Definition bind (A B : Type) (c : completion A) (k : A -> completion B)
    : completion B :=
  match c with
  | Normal a => k a
  | Throw e => Throw e
  end.

Definition throws (A : Type) (c : completion A) : Prop :=
  exists message, c = Throw (TypeError message).

End JS.

Import JS.

Notation "x <- c ;; k" := (JS.bind c (fun x => k))
  (at level 61, c at next level, right associativity).

(** ** Regular expressions

    A backtracking matcher for the fragment of JavaScript regular
    expressions that [splitPathRe] uses: anchors, alternation (left
    alternative first), sequencing, capture groups, and greedy or lazy
    quantifiers applied to a character class.  The matcher works on the
    suffix of the input still to be read and passes the captures to a
    continuation, so that a failure further right backtracks into the
    choice points in the order of the ECMAScript semantics. *)

Module RegExp.

Definition charset : Type := ascii -> bool.

Inductive regex : Type :=
| Empty                                    (* the empty alternative *)
| Bol                                      (* ^ *)
| Eol                                      (* $ *)
| Rep (cs : charset) (lo : nat) (hi : option nat) (greedy : bool)
| Seq (r1 r2 : regex)
| Alt (r1 r2 : regex)
| Group (i : nat) (r : regex).

Definition captures : Type := list (option string).
Definition cont : Type := string -> captures -> option captures.

Fixpoint set_capture (i : nat) (v : string) (caps : captures) {struct caps}
    : captures :=
  match i, caps with
  | O, _ :: rest => Some v :: rest
  | S i', c :: rest => c :: set_capture i' v rest
  | _, [] => []
  end.

(** The text consumed between the suffix [s] and its suffix [s']. *)
Definition consumed (s s' : string) : string :=
  substring 0 (length s - length s') s.

(** A quantified class, [lo] to [hi] repetitions ([None]: unbounded).
    Greedy: one more character first, stopping as the fallback; lazy:
    the other way round. *)
Fixpoint rep_match (cs : charset) (greedy : bool) (lo : nat) (hi : option nat)
    (s : string) (caps : captures) (k : cont) {struct s} : option captures :=
  let stop := fun _ : unit =>
    match lo with
    | O => k s caps
    | S _ => None
    end in
  let more := fun _ : unit =>
    match hi, s with
    | Some O, _ => None
    | _, String c s' =>
        if cs c
        then rep_match cs greedy (Nat.pred lo) (option_map Nat.pred hi) s' caps k
        else None
    | _, EmptyString => None
    end in
  if greedy
  then match more tt with Some r => Some r | None => stop tt end
  else match stop tt with Some r => Some r | None => more tt end.

(** [input] is the whole subject string, for the anchor [^]. *)
Fixpoint run (input : string) (r : regex) (s : string) (caps : captures)
    (k : cont) {struct r} : option captures :=
  match r with
  | Empty => k s caps
  | Bol => if Nat.eqb (length s) (length input) then k s caps else None
  | Eol => match s with EmptyString => k s caps | String _ _ => None end
  | Rep cs lo hi greedy => rep_match cs greedy lo hi s caps k
  | Seq r1 r2 => run input r1 s caps (fun s' caps' => run input r2 s' caps' k)
  | Alt r1 r2 =>
      match run input r1 s caps k with
      | Some res => Some res
      | None => run input r2 s caps k
      end
  | Group i r' =>
      run input r' s caps
        (fun s' caps' => k s' (set_capture i (consumed s s') caps'))
  end.

(** [re.exec(input)] for a pattern with [groups] capture groups and no
    flags: the first start index, from 0 on, at which the pattern
    matches; [None] is JavaScript's [null].  Element 0 of the result is
    the whole match. *)
Fixpoint exec_from (input : string) (groups : nat) (r : regex) (s : string)
    : option captures :=
  match run input r s (repeat None (S groups))
          (fun s' caps => Some (set_capture 0 (consumed s s') caps)) with
  | Some m => Some m
  | None =>
      match s with
      | String _ s' => exec_from input groups r s'
      | EmptyString => None
      end
  end.

Definition exec (groups : nat) (r : regex) (input : string) : option captures :=
  exec_from input groups r input.

End RegExp.

(** ** The path module *)

Definition sep : string := "/".
Definition delimiter : string := ":".
Definition slash : ascii := "/"%char.
Definition dot : ascii := "."%char.

(** [normalizeArray]: the body of the [for] loop, then the loop as a fold
    over [parts] with the accumulator [res], initially empty. *)
Definition normalizeArray_step (allowAboveRoot : bool)
    (res : list string) (p : string) : list string :=
  if negb (JS.truthy p) || (p =? ".") then res
  else if p =? ".." then
    if negb (Nat.eqb (List.length res) 0) && negb (last res "" =? "..")
    then JS.pop res
    else if allowAboveRoot then JS.push res ".."
    else res
  else JS.push res p.

Definition normalizeArray (parts : list string) (allowAboveRoot : bool)
    : list string :=
  fold_left (normalizeArray_step allowAboveRoot) parts [].

Definition isAbsolute (path : string) : bool :=
  JS.charAt path 0 =? "/".

Definition normalize (path : string) : string :=
  let absolute := isAbsolute path in
  let trailingSlash := JS.substr path (-1) None =? "/" in
  let path := JS.join "/" (normalizeArray (JS.split slash path) (negb absolute)) in
  let path := if negb (JS.truthy path) && negb absolute then "." else path in
  let path := if JS.truthy path && trailingSlash then path ++ "/" else path in
  (if absolute then "/" else "") ++ path.


(** [join]: the loop over the arguments, threading [path]. *)
Definition join_step (path : string) (segment : value) : completion string :=
  match segment with
  | VString segment =>
      if JS.truthy segment then
        if negb (JS.truthy path) then Normal (path ++ segment)
        else Normal (path ++ "/" ++ segment)
      else Normal path
  | _ => Throw (TypeError "Arguments to path.join must be strings")
  end.

Fixpoint join_loop (args : list value) (path : string) : completion string :=
  match args with
  | [] => Normal path
  | segment :: rest => path' <- join_step path segment ;; join_loop rest path'
  end.

Definition join (args : list value) : completion string :=
  path <- join_loop args "" ;;
  Normal (normalize path).

(** The host environment: [Some cwd] when the global [process] exists
    (its [cwd()] returning [cwd]), [None] when it does not. *)
Definition environment : Type := option string.

Definition getCwd (env : environment) : string :=
  match env with
  | Some cwd => cwd
  | None => "/"
  end.

(** [resolve]: one iteration of the loop for the entry [path]. *)
Definition resolve_step (path : value) (resolvedPath : string)
    : completion (string * bool) :=
  match path with
  | VString path =>
      if negb (JS.truthy path) then Normal (resolvedPath, false)
      else Normal (path ++ "/" ++ resolvedPath, JS.charAt path 0 =? "/")
  | _ => Throw (TypeError "Arguments to path.resolve must be strings")
  end.

(** The loop runs over the arguments from the last to the first and then,
    at index -1, over the working directory; it stops as soon as
    [resolvedAbsolute] holds.  [pending] lists the arguments not yet
    visited, last argument first. *)
Fixpoint resolve_loop (env : environment) (pending : list value)
    (resolvedPath : string) (resolvedAbsolute : bool)
    : completion (string * bool) :=
  if resolvedAbsolute then Normal (resolvedPath, resolvedAbsolute)
  else match pending with
       | path :: rest =>
           st <- resolve_step path resolvedPath ;;
           resolve_loop env rest (fst st) (snd st)
       | [] => resolve_step (VString (getCwd env)) resolvedPath
       end.

(** The final [?? '.'] applies to a string, which is never nullish, so the
    concatenation is what is returned. *)
Definition resolve (env : environment) (args : list value) : completion string :=
  st <- resolve_loop env (rev args) "" false ;;
  let resolvedAbsolute := snd st in
  let resolvedPath :=
    JS.join "/" (normalizeArray (JS.split slash (fst st)) (negb resolvedAbsolute)) in
  Normal ((if resolvedAbsolute then "/" else "") ++ resolvedPath).

(** [relative] and its local helper [trim]. *)
Fixpoint leading_empty (arr : list string) : nat :=
  match arr with
  | x :: rest => if x =? "" then S (leading_empty rest) else 0
  | [] => 0
  end.

Definition trim (arr : list string) : list string :=
  let start := leading_empty arr in
  let stop := (Z.of_nat (List.length arr) - 1 - Z.of_nat (leading_empty (rev arr)))%Z in
  if (Z.of_nat start >? stop)%Z then []
  else JS.array_slice arr start (Z.to_nat (stop + 1)).

Fixpoint samePartsLength (fromParts toParts : list string) : nat :=
  match fromParts, toParts with
  | f :: fromParts', t :: toParts' =>
      if f =? t then S (samePartsLength fromParts' toParts') else 0
  | _, _ => 0
  end.

Definition relative (env : environment) (from to : value) : completion string :=
  from <- resolve env [from] ;;
  to <- resolve env [to] ;;
  let from := JS.substring_from from 1 in
  let to := JS.substring_from to 1 in
  let fromParts := trim (JS.split slash from) in
  let toParts := trim (JS.split slash to) in
  let same := samePartsLength fromParts toParts in
  let outputParts := repeat ".." (List.length fromParts - same) in
  let outputParts := (outputParts ++ skipn same toParts)%list in
  Normal (JS.join "/" outputParts).


(** [splitPathRe], group by group (spaces added):
<<
      ^  (\/?|)                               root_re
         ([\s\S]*?)                           dir_re
         ( (?:\.{1,2}|[^\/]+?|)               base_re: stem_re,
           (\.[^.\/]*|) )                      then ext_re inside it
         (?: [\/]* )  $                       tail_re
>> *)
Definition is_slash : RegExp.charset := fun c => Ascii.eqb c slash.
Definition is_dot : RegExp.charset := fun c => Ascii.eqb c dot.
Definition any_char : RegExp.charset := fun _ => true.
Definition not_slash : RegExp.charset := fun c => negb (Ascii.eqb c slash).
Definition not_dot_slash : RegExp.charset :=
  fun c => negb (Ascii.eqb c dot) && negb (Ascii.eqb c slash).

Definition root_re : RegExp.regex :=
  RegExp.Group 1 (RegExp.Alt (RegExp.Rep is_slash 0 (Some 1) true) RegExp.Empty).

Definition dir_re : RegExp.regex :=
  RegExp.Group 2 (RegExp.Rep any_char 0 None false).

Definition ext_re : RegExp.regex :=
  RegExp.Group 4
    (RegExp.Alt
       (RegExp.Seq (RegExp.Rep is_dot 1 (Some 1) true)
                   (RegExp.Rep not_dot_slash 0 None true))
       RegExp.Empty).

Definition stem_re : RegExp.regex :=
  RegExp.Alt (RegExp.Rep is_dot 1 (Some 2) true)
    (RegExp.Alt (RegExp.Rep not_slash 1 None false) RegExp.Empty).

Definition base_re : RegExp.regex :=
  RegExp.Group 3 (RegExp.Seq stem_re ext_re).

Definition tail_re : RegExp.regex :=
  RegExp.Seq (RegExp.Rep is_slash 0 None true) RegExp.Eol.

Definition splitPathRe : RegExp.regex :=
  RegExp.Seq RegExp.Bol
    (RegExp.Seq root_re (RegExp.Seq dir_re (RegExp.Seq base_re tail_re))).

(** [posixSplitPath]: [exec(filename)!.slice(1)]; on [null] the call of
    [slice] throws. *)
Definition posixSplitPath (filename : string) : completion (list (option string)) :=
  match RegExp.exec 4 splitPathRe filename with
  | Some m => Normal (tl m)
  | None => Throw (TypeError "Cannot read properties of null (reading 'slice')")
  end.

(** [arr[i]] on a match array; out of range is [undefined]. *)
Definition at_index (arr : list (option string)) (i : nat) : option string :=
  nth i arr None.

(** A method call on a value that has to be a string: on [undefined] it
    throws. *)
Definition receiver (c : option string) : completion string :=
  match c with
  | Some s => Normal s
  | None => Throw (TypeError "Cannot read properties of undefined")
  end.

(** [basename(path, ext?)]; [ext] omitted is [None].  The method calls on
    [f] happen only when [ext] is truthy. *)
Definition basename (path : string) (ext : option string) : completion value :=
  parts <- posixSplitPath path ;;
  let f := at_index parts 2 in
  match ext with
  | Some ext =>
      if JS.truthy ext then
        f' <- receiver f ;;
        if JS.substr f' (-1 * Z.of_nat (length ext)) None =? ext
        then Normal (VString
               (JS.substr f' 0 (Some (Z.of_nat (length f') - Z.of_nat (length ext))%Z)))
        else Normal (VString f')
      else Normal (of_capture f)
  | None => Normal (of_capture f)
  end.

(** [dirname(path)]. *)
Definition dirname (path : string) : completion string :=
  result <- posixSplitPath path ;;
  let root := of_capture (at_index result 0) in
  let dir := of_capture (at_index result 1) in
  if negb (truthy_value root) && negb (truthy_value dir) then Normal "."
  else
    let dir :=
      if truthy_value dir
      then VString (JS.substr (to_string dir) 0
                      (Some (Z.of_nat (length (to_string dir)) - 1)%Z))
      else dir in
    Normal (to_string root ++ to_string dir).

Definition extname (path : string) : completion value :=
  parts <- posixSplitPath path ;;
  Normal (of_capture (at_index parts 3)).

Definition isObject (o : value) : bool :=
  match o with
  | VObject _ => true
  | _ => false
  end.

Definition isString (x : value) : bool :=
  typeof x =? "string".

(** Property access on a value known to be an object. *)
Definition prop (o : value) (key : string) : value :=
  match o with
  | VObject props => get_prop props key
  | _ => VUndefined
  end.

Definition format (pathObject : value) : completion string :=
  if negb (isObject pathObject) then
    Throw (TypeError ("Parameter 'pathObject' must be an object, not "
                      ++ typeof pathObject))
  else
    let root := nullish (prop pathObject "root") (VString "") in
    if negb (isString root) then
      Throw (TypeError ("'pathObject.root' must be a string or undefined, not "
                        ++ typeof (prop pathObject "root")))
    else
      let dir := if truthy_value (prop pathObject "dir")
                 then to_string (prop pathObject "dir") ++ sep else "" in
      let base := nullish (prop pathObject "base") (VString "") in
      Normal (dir ++ to_string base).

Definition parse (pathString : value) : completion value :=
  match pathString with
  | VString pathString =>
      allParts <- posixSplitPath pathString ;;
      if negb (Nat.eqb (List.length allParts) 4) then
        Throw (TypeError ("Invalid path '" ++ pathString ++ "'"))
      else
        let part0 := of_capture (at_index allParts 0) in
        let part1 := to_string (nullish (of_capture (at_index allParts 1)) (VString "")) in
        let part2 := to_string (nullish (of_capture (at_index allParts 2)) (VString "")) in
        let part3 := to_string (nullish (of_capture (at_index allParts 3)) (VString "")) in
        Normal (VObject
          [ ("root", part0);
            ("dir", VString (to_string part0
                      ++ JS.slice part1 0 (Z.of_nat (length part1) - 1)));
            ("base", VString part2);
            ("ext", VString part3);
            ("name", VString (JS.slice part2 0
                      (Z.of_nat (length part2) - Z.of_nat (length part3)))) ])
  | _ =>
      Throw (TypeError ("Parameter 'pathString' must be a string, not "
                        ++ typeof pathString))
  end.


(** ** Specification-level definitions *)

(** The segment normalizer as the specification words it: one pass from
    left to right over the segments, [single_pass allow parts acc] saying
    that after reading [parts] the accumulator holds [acc]. *)
Inductive single_pass (allowAboveRoot : bool) : list string -> list string -> Prop :=
| pass_start :
    single_pass allowAboveRoot [] []
| pass_drop parts acc p :
    single_pass allowAboveRoot parts acc ->
    p = "" \/ p = "." ->
    single_pass allowAboveRoot (parts ++ [p])%list acc
| pass_pop parts acc x :
    single_pass allowAboveRoot parts (acc ++ [x])%list ->
    x <> ".." ->
    single_pass allowAboveRoot (parts ++ [".."])%list acc
| pass_above parts acc :
    single_pass allowAboveRoot parts acc ->
    acc = [] \/ (exists acc', acc = (acc' ++ [".."])%list) ->
    allowAboveRoot = true ->
    single_pass allowAboveRoot (parts ++ [".."])%list (acc ++ [".."])%list
| pass_suppress parts acc :
    single_pass allowAboveRoot parts acc ->
    acc = [] \/ (exists acc', acc = (acc' ++ [".."])%list) ->
    allowAboveRoot = false ->
    single_pass allowAboveRoot (parts ++ [".."])%list acc
| pass_keep parts acc p :
    single_pass allowAboveRoot parts acc ->
    p <> "" -> p <> "." -> p <> ".." ->
    single_pass allowAboveRoot (parts ++ [p])%list (acc ++ [p])%list.

(** Whether the last character of [s] is [c]. *)
Fixpoint ends_with (c : ascii) (s : string) : bool :=
  match s with
  | EmptyString => false
  | String a EmptyString => Ascii.eqb a c
  | String _ s' => ends_with c s'
  end.

(** [normalize] as the specification words it: the rejoined segments,
    with "." returned for an empty result of a relative path, and the
    trailing slash put back after a non-empty result. *)
Definition normalized_segments (p : string) : list string :=
  normalizeArray (JS.split slash p) (negb (isAbsolute p)).

Definition normalize_spec (p : string) : string :=
  let result := JS.join "/" (normalized_segments p) in
  if (result =? "") && negb (isAbsolute p) then "."
  else (if isAbsolute p then "/" else "")
       ++ result
       ++ (if ends_with slash p && negb (result =? "") then "/" else "").

(** Whether the character [c] occurs in [s]. *)
Fixpoint has_char (c : ascii) (s : string) : bool :=
  match s with
  | EmptyString => false
  | String a s' => Ascii.eqb a c || has_char c s'
  end.

(** A segment as it can stand in a path: not empty and without "/". *)
Definition segment (p : string) : Prop :=
  p <> "" /\ has_char slash p = false.

(** A name: a segment other than "." and "..". *)
Definition name_segment (p : string) : Prop :=
  segment p /\ p <> "." /\ p <> "..".

(** The shape of a normalized segment list: some ".." (none unless
    climbing above the start is allowed) followed by names. *)
Definition normal_form (allowAboveRoot : bool) (l : list string) : Prop :=
  exists (k : nat) (names : list string),
    l = (repeat ".." k ++ names)%list
    /\ Forall name_segment names
    /\ (allowAboveRoot = false -> k = 0).

(** The longest prefix of [s] whose characters satisfy [f], and what
    follows it. *)
Fixpoint take_while (f : ascii -> bool) (s : string) : string :=
  match s with
  | EmptyString => EmptyString
  | String c s' => if f c then String c (take_while f s') else EmptyString
  end.

Fixpoint drop_while (f : ascii -> bool) (s : string) : string :=
  match s with
  | EmptyString => EmptyString
  | String c s' => if f c then drop_while f s' else s
  end.

Fixpoint all_of (f : ascii -> bool) (s : string) : bool :=
  match s with
  | EmptyString => true
  | String c s' => f c && all_of f s'
  end.

(** The suffix of [s] that starts at its last ".", empty without one. *)
Fixpoint dot_suffix (s : string) : string :=
  match s with
  | EmptyString => EmptyString
  | String c s' =>
      if has_char dot s' then dot_suffix s'
      else if Ascii.eqb c dot then s else EmptyString
  end.

(** The extension of a path component [b]: the suffix from the last "."
    on, provided that "." is not the first character of [b]; ".." has
    none. *)
Definition extension (b : string) : string :=
  match b with
  | EmptyString => EmptyString
  | String _ b' => if b =? ".." then EmptyString else dot_suffix b'
  end.

(** The directory part and the final component of a path without its
    root: the split is at the first position after which only a
    component and slashes follow. *)
Fixpoint split_dir (s : string) : string * string :=
  if all_of is_slash (drop_while not_slash s)
  then (EmptyString, take_while not_slash s)
  else match s with
       | EmptyString => (EmptyString, EmptyString)
       | String c s' => let (d, b) := split_dir s' in (String c d, b)
       end.

(** What [posixSplitPath] returns, computed directly. *)
Definition split_path (p : string) : list (option string) :=
  let root := if isAbsolute p then "/" else "" in
  let rest := if isAbsolute p then JS.substring_from p 1 else p in
  let (d, b) := split_dir rest in
  [Some root; Some d; Some b; Some (extension b)].

(** Whether [u] can be matched by [ext_re] as a whole: empty, or a "."
    followed by characters other than "." (and "/"). *)
Definition is_ext (u : string) : bool :=
  match u with
  | EmptyString => true
  | String a w => Ascii.eqb a dot && negb (has_char dot w)
  end.

(** The final component of a path, as [split_path] finds it. *)
Definition final_component (p : string) : string :=
  snd (split_dir (if isAbsolute p then JS.substring_from p 1 else p)).

(** A path made of one component directly under the root, as "/a". *)
Definition in_root_directory (p : string) : bool :=
  isAbsolute p && negb (has_char slash (JS.substring_from p 1)).

(** A field of a record with string fields: present with the string [s],
    or absent, which counts as the empty string. *)
Definition string_field (v : value) (s : string) : Prop :=
  v = VString s \/ (v = VUndefined /\ s = "").

(** The string that [normalize] builds from an absoluteness flag, a
    segment list and a trailing-slash flag. *)
Definition assemble (absolute : bool) (l : list string) (trailing : bool) : string :=
  (if absolute then "/" else "")
  ++ match l with
     | [] => if absolute then "" else if trailing then "./" else "."
     | _ :: _ => JS.join "/" l ++ (if trailing then "/" else "")
     end.

(** Slashes to the end of the input, after the component. *)
Definition slashes_then (sl : string) : Prop :=
  sl = "" \/ exists sl', sl = String slash sl'.

(** A segment that the normalizer keeps as it is: not empty, not "."
    and not "..". *)
Definition plain_name (p : string) : Prop :=
  p <> "" /\ p <> "." /\ p <> "..".

(** ** The examples of the specification, by evaluation *)

Example normalize_ex1 : normalize "a/../../b" = "../b".
Proof. reflexivity. Qed.
Example normalize_ex2 : normalize "/a/b/../../c" = "/c".
Proof. reflexivity. Qed.
Example normalize_ex3 : normalize "./" = "./".
Proof. reflexivity. Qed.
Example normalize_ex4 : normalize "" = ".".
Proof. reflexivity. Qed.
Example normalize_ex5 : normalize "//a//b/./" = "/a/b/".
Proof. reflexivity. Qed.
Example join_ex1 : join [VString "a"; VString ""; VString "b"; VString "../c"] = Normal "a/c".
Proof. reflexivity. Qed.
Example relative_ex1 : relative None (VString "/a/b/c") (VString "/a/b/d/e") = Normal "../d/e".
Proof. reflexivity. Qed.
Example resolve_ex1 : resolve (Some "/home/u") [VString "a"; VString "../b/"] = Normal "/home/u/b".
Proof. reflexivity. Qed.
Example resolve_ex2 : resolve None [VNumber 1; VString "/a"] = Normal "/a".
Proof. reflexivity. Qed.
Example split_ex1 : posixSplitPath "/home/user/file.tar.gz"
  = Normal [Some "/"; Some "home/user/"; Some "file.tar.gz"; Some ".gz"].
Proof. reflexivity. Qed.
Example split_ex2 : posixSplitPath "..hidden" = Normal [Some ""; Some ""; Some "..hidden"; Some ".hidden"].
Proof. reflexivity. Qed.
Example split_ex3 : posixSplitPath "a//b///" = Normal [Some ""; Some "a//"; Some "b"; Some ""].
Proof. reflexivity. Qed.
Example split_ex4 : posixSplitPath ".." = Normal [Some ""; Some ""; Some ".."; Some ""].
Proof. reflexivity. Qed.
Example split_ex5 : posixSplitPath "..." = Normal [Some ""; Some ""; Some "..."; Some "."].
Proof. reflexivity. Qed.
Example parse_ex1 : parse (VString "/home/user/file.tar.gz")
  = Normal (VObject [("root", VString "/"); ("dir", VString "/home/user");
                     ("base", VString "file.tar.gz"); ("ext", VString ".gz");
                     ("name", VString "file.tar")]).
Proof. reflexivity. Qed.
Example format_parse_ex1 : (o <- parse (VString "/a") ;; format o) = Normal "//a".
Proof. reflexivity. Qed.
Example dirname_ex1 : dirname "/a/b/" = Normal "/a".
Proof. reflexivity. Qed.
Example dirname_ex2 : dirname "a" = Normal ".".
Proof. reflexivity. Qed.
Example basename_ex1 : basename "/a/b/file.txt" (Some ".txt") = Normal (VString "file").
Proof. reflexivity. Qed.
Example basename_ex2 : basename "/a/b/file.txt" None = Normal (VString "file.txt").
Proof. reflexivity. Qed.

(** ** Lemmas on strings and arrays *)

Lemma append_empty_r (s : string) : s ++ "" = s.
Proof. induction s as [|a s IH]; simpl; [reflexivity | now rewrite IH]. Qed.

Lemma append_assoc (a b c : string) : (a ++ b) ++ c = a ++ (b ++ c).
Proof. induction a as [|x a IH]; simpl; [reflexivity | now rewrite IH]. Qed.

Lemma append_length (a b : string) : length (a ++ b) = length a + length b.
Proof. induction a as [|x a IH]; simpl; [reflexivity | now rewrite IH]. Qed.

Lemma truthy_eqb_empty (s : string) : JS.truthy s = negb (s =? "").
Proof. destruct s; reflexivity. Qed.

Lemma substring_zero_all (s : string) : substring 0 (length s) s = s.
Proof. induction s as [|a s IH]; simpl; [reflexivity | now rewrite IH]. Qed.

Lemma substring_zero_append (a b : string) : substring 0 (length a) (a ++ b) = a.
Proof.
  induction a as [|x a IH]; simpl.
  - destruct b; reflexivity.
  - now rewrite IH.
Qed.

Lemma substring_last_char (s : string) (a : ascii) :
  (substring (length s) 1 (String a s) =? "/") = ends_with slash (String a s).
Proof.
  revert a; induction s as [|b s IH]; intros a.
  - simpl. unfold slash. destruct (Ascii.eqb a "/"); reflexivity.
  - change (substring (length (String b s)) 1 (String a (String b s)))
      with (substring (length s) 1 (String b s)).
    rewrite IH. reflexivity.
Qed.

Lemma substr_last_is_slash (p : string) :
  (JS.substr p (-1) None =? "/") = ends_with slash p.
Proof.
  destruct p as [|a s]; [reflexivity|].
  unfold JS.substr.
  change (-1 <? 0)%Z with true. cbv iota.
  replace (Z.max (Z.of_nat (length (String a s)) + -1) 0)
    with (Z.of_nat (length s)) by (simpl length; lia).
  replace (Z.of_nat (length (String a s)) - Z.of_nat (length s))%Z
    with 1%Z by (simpl length; lia).
  rewrite Nat2Z.id. change (Z.to_nat 1) with 1.
  apply substring_last_char.
Qed.

Lemma isAbsolute_cons (c : ascii) (s : string) :
  isAbsolute (String c s) = Ascii.eqb c slash.
Proof.
  unfold isAbsolute, JS.charAt. simpl.
  unfold slash. destruct (Ascii.eqb c "/"); reflexivity.
Qed.

Lemma last_snoc (A : Type) (l : list A) (x d : A) : last (l ++ [x]) d = x.
Proof. apply last_last. Qed.

Lemma normalizeArray_snoc (parts : list string) (p : string) (allow : bool) :
  normalizeArray (parts ++ [p]) allow
  = normalizeArray_step allow (normalizeArray parts allow) p.
Proof. unfold normalizeArray. rewrite fold_left_app. reflexivity. Qed.

Lemma step_drop (allow : bool) (res : list string) (p : string) :
  p = "" \/ p = "." -> normalizeArray_step allow res p = res.
Proof. intros [-> | ->]; reflexivity. Qed.

Lemma step_keep (allow : bool) (res : list string) (p : string) :
  p <> "" -> p <> "." -> p <> ".." ->
  normalizeArray_step allow res p = (res ++ [p])%list.
Proof.
  intros H1 H2 H3. unfold normalizeArray_step.
  rewrite truthy_eqb_empty, negb_involutive.
  apply String.eqb_neq in H1, H2, H3. rewrite H1, H2, H3. reflexivity.
Qed.

Lemma step_pop (allow : bool) (res : list string) (x : string) :
  x <> ".." -> normalizeArray_step allow (res ++ [x]) ".." = res.
Proof.
  intros Hx. unfold normalizeArray_step. simpl.
  rewrite length_app, last_snoc. simpl.
  replace (List.length res + 1 =? 0)%nat with false
    by (symmetry; apply Nat.eqb_neq; lia).
  apply String.eqb_neq in Hx. rewrite Hx. simpl.
  unfold JS.pop. apply removelast_last.
Qed.

Lemma step_parent_top (allow : bool) (res : list string) :
  res = [] \/ (exists res', res = (res' ++ [".."])%list) ->
  normalizeArray_step allow res ".."
  = if allow then (res ++ [".."])%list else res.
Proof.
  intros [-> | [res' ->]]; unfold normalizeArray_step; simpl.
  - reflexivity.
  - rewrite last_snoc. simpl. rewrite andb_false_r. reflexivity.
Qed.

Lemma snoc_or_nil (A : Type) (l : list A) :
  l = [] \/ exists l' x, l = (l' ++ [x])%list.
Proof.
  destruct l as [|a l] using rev_ind; [now left | right; eauto].
Qed.

(** *** [split] and [join] *)

Lemma split_not_nil (s : string) : JS.split slash s <> [].
Proof.
  destruct s as [|c s]; simpl; [discriminate|].
  destruct (Ascii.eqb c slash); [discriminate|].
  destruct (JS.split slash s); discriminate.
Qed.

Lemma split_append_slash (a b : string) :
  JS.split slash (a ++ String slash b)
  = (JS.split slash a ++ JS.split slash b)%list.
Proof.
  induction a as [|c a IH].
  - reflexivity.
  - change (String c a ++ String slash b) with (String c (a ++ String slash b)).
    simpl. rewrite IH.
    destruct (Ascii.eqb c slash); [reflexivity|].
    destruct (JS.split slash a) as [|piece pieces] eqn:E.
    + now apply split_not_nil in E.
    + reflexivity.
Qed.

Lemma split_slash_free (s : string) :
  has_char slash s = false -> JS.split slash s = [s].
Proof.
  induction s as [|c s IH]; simpl; [reflexivity|].
  intros H. apply orb_false_iff in H. destruct H as [Hc Hs].
  rewrite Hc, (IH Hs). reflexivity.
Qed.

Lemma split_pieces_slash_free (s : string) :
  Forall (fun piece => has_char slash piece = false) (JS.split slash s).
Proof.
  induction s as [|c s IH]; simpl.
  - repeat constructor.
  - destruct (Ascii.eqb c slash) eqn:Hc.
    + constructor; [reflexivity | exact IH].
    + destruct (JS.split slash s) as [|piece pieces].
      * repeat constructor. simpl. now rewrite Hc.
      * inversion IH; subst. constructor; [|assumption].
        simpl. now rewrite Hc.
Qed.

Lemma join_cons2 (x y : string) (l : list string) :
  JS.join "/" (x :: y :: l) = x ++ String slash (JS.join "/" (y :: l)).
Proof. reflexivity. Qed.

Lemma split_join (l : list string) :
  l <> [] ->
  Forall (fun piece => has_char slash piece = false) l ->
  JS.split slash (JS.join "/" l) = l.
Proof.
  induction l as [|x l IH]; [congruence|].
  intros _ H. inversion H as [|? ? Hx Hl]; subst.
  destruct l as [|y l].
  - simpl. now apply split_slash_free.
  - rewrite join_cons2, split_append_slash, split_slash_free by assumption.
    rewrite IH by (assumption || discriminate). reflexivity.
Qed.

Lemma join_snoc (l : list string) (x : string) :
  l <> [] ->
  JS.join "/" (l ++ [x]) = JS.join "/" l ++ String slash x.
Proof.
  induction l as [|y l IH]; [congruence|]. intros _.
  destruct l as [|z l].
  - reflexivity.
  - change ((y :: z :: l) ++ [x])%list with (y :: (z :: l) ++ [x])%list.
    change ((z :: l) ++ [x])%list with (z :: (l ++ [x]))%list.
    rewrite join_cons2.
    change (z :: (l ++ [x]))%list with ((z :: l) ++ [x])%list.
    rewrite IH by discriminate.
    rewrite join_cons2, append_assoc. reflexivity.
Qed.

Lemma join_eq_empty (l : list string) :
  Forall segment l -> JS.join "/" l = "" -> l = [].
Proof.
  intros H E. destruct l as [|x l]; [reflexivity|].
  inversion H as [|? ? [Hx _] _]; subst.
  destruct l as [|y l].
  - simpl in E. contradiction.
  - rewrite join_cons2 in E. destruct x; [contradiction | discriminate].
Qed.

Lemma ends_with_append (c : ascii) (a b : string) :
  b <> "" -> ends_with c (a ++ b) = ends_with c b.
Proof.
  intros Hb. induction a as [|x a IH]; [reflexivity|].
  change (String x a ++ b) with (String x (a ++ b)).
  destruct (a ++ b) eqn:E.
  - destruct a; [simpl in E; contradiction | discriminate].
  - rewrite <- IH. reflexivity.
Qed.

Lemma ends_with_has_char (c : ascii) (s : string) :
  ends_with c s = true -> has_char c s = true.
Proof.
  induction s as [|a s IH]; [discriminate|].
  destruct s as [|b s].
  - simpl. intros ->. reflexivity.
  - intros H. change (ends_with c (String b s) = true) in H.
    simpl. rewrite (IH H) at 1. apply orb_true_r.
Qed.

Lemma segment_no_trailing_slash (s : string) :
  segment s -> ends_with slash s = false.
Proof.
  intros [_ H]. destruct (ends_with slash s) eqn:E; [|reflexivity].
  apply ends_with_has_char in E. congruence.
Qed.

Lemma join_no_trailing_slash (l : list string) :
  Forall segment l -> ends_with slash (JS.join "/" l) = false.
Proof.
  induction 1 as [|x l Hx Hl IH]; [reflexivity|].
  destruct l as [|y l].
  - now apply segment_no_trailing_slash.
  - rewrite join_cons2. rewrite ends_with_append.
    + destruct (JS.join "/" (y :: l)) eqn:E.
      * apply join_eq_empty in E; [discriminate | assumption].
      * exact IH.
    + discriminate.
Qed.

Lemma isAbsolute_append (a b : string) :
  a <> "" -> isAbsolute (a ++ b) = isAbsolute a.
Proof.
  destruct a as [|c a]; [congruence|]. intros _.
  change (String c a ++ b) with (String c (a ++ b)).
  now rewrite !isAbsolute_cons.
Qed.

Lemma segment_not_absolute (s : string) : segment s -> isAbsolute s = false.
Proof.
  intros [Hne H]. destruct s as [|c s]; [reflexivity|].
  rewrite isAbsolute_cons. simpl in H. now apply orb_false_iff in H.
Qed.

Lemma join_not_absolute (l : list string) :
  Forall segment l -> isAbsolute (JS.join "/" l) = false.
Proof.
  intros H. destruct H as [|x l Hx Hl]; [reflexivity|].
  destruct l as [|y l].
  - now apply segment_not_absolute.
  - rewrite join_cons2, isAbsolute_append by apply Hx.
    now apply segment_not_absolute.
Qed.

(** *** The normal form of segment lists *)

Lemma name_segment_step (allow : bool) (res : list string) (p : string) :
  name_segment p -> normalizeArray_step allow res p = (res ++ [p])%list.
Proof. intros [[H1 _] [H2 H3]]. now apply step_keep. Qed.

Lemma fold_names (allow : bool) (names acc : list string) :
  Forall name_segment names ->
  fold_left (normalizeArray_step allow) names acc = (acc ++ names)%list.
Proof.
  intros H. revert acc. induction H as [|p names Hp _ IH]; intros acc; simpl.
  - now rewrite app_nil_r.
  - rewrite name_segment_step by assumption. rewrite IH, <- app_assoc. reflexivity.
Qed.

Lemma repeat_snoc (A : Type) (a : A) (n : nat) :
  repeat a (S n) = (repeat a n ++ [a])%list.
Proof. simpl. apply repeat_cons. Qed.

Lemma parents_on_top (k : nat) :
  repeat ".." k = [] \/ exists res', repeat ".." k = (res' ++ [".."])%list.
Proof.
  destruct k as [|k]; [now left | right].
  exists (repeat ".." k). apply repeat_snoc.
Qed.

Lemma fold_parents (k j : nat) :
  fold_left (normalizeArray_step true) (repeat ".." k) (repeat ".." j)
  = repeat ".." (j + k).
Proof.
  revert j. induction k as [|k IH]; intros j; simpl.
  - now rewrite Nat.add_0_r.
  - rewrite step_parent_top by apply parents_on_top.
    rewrite <- repeat_snoc, IH. f_equal. lia.
Qed.

Lemma normal_form_fixed (allow : bool) (l : list string) :
  normal_form allow l -> normalizeArray l allow = l.
Proof.
  intros (k & names & -> & Hnames & Hk).
  unfold normalizeArray. rewrite fold_left_app.
  destruct allow.
  - change (@nil string) with (repeat ".." 0) at 1.
    rewrite fold_parents, fold_names by assumption. reflexivity.
  - rewrite (Hk eq_refl). simpl. now apply fold_names.
Qed.

Lemma normalizeArray_normal_form (parts : list string) (allow : bool) :
  Forall (fun piece => has_char slash piece = false) parts ->
  normal_form allow (normalizeArray parts allow).
Proof.
  induction parts as [|p parts IH] using rev_ind; intros Hparts.
  - exists 0, []. repeat split; auto.
  - apply Forall_app in Hparts. destruct Hparts as [Hparts Hp].
    inversion Hp as [|? ? Hp' _]; subst.
    destruct (IH Hparts) as (k & names & E & Hnames & Hk).
    rewrite normalizeArray_snoc, E.
    destruct (string_dec p "") as [-> | Hne].
    { rewrite step_drop by now left. exists k, names. auto. }
    destruct (string_dec p ".") as [-> | Hnd].
    { rewrite step_drop by now right. exists k, names. auto. }
    destruct (string_dec p "..") as [-> | Hnp].
    2:{ rewrite step_keep by assumption. rewrite <- app_assoc.
        exists k, (names ++ [p])%list. repeat split; auto.
        apply Forall_app. split; [assumption|].
        repeat constructor; assumption. }
    destruct (snoc_or_nil names) as [-> | (names' & x & ->)].
    + rewrite app_nil_r, step_parent_top by apply parents_on_top.
      destruct allow.
      * exists (S k), []. rewrite app_nil_r. repeat split; auto.
        -- symmetry. apply repeat_snoc.
        -- discriminate.
      * exists k, []. rewrite app_nil_r. auto.
    + apply Forall_app in Hnames. destruct Hnames as [Hnames' Hx].
      inversion Hx as [|? ? [_ [_ Hx']] _]; subst.
      rewrite app_assoc, step_pop by assumption.
      exists k, names'. auto.
Qed.

Lemma normal_form_segments (allow : bool) (l : list string) :
  normal_form allow l -> Forall segment l.
Proof.
  intros (k & names & -> & Hnames & _). apply Forall_app. split.
  - apply Forall_forall. intros x Hx. apply repeat_spec in Hx. subst.
    split; [discriminate | reflexivity].
  - eapply Forall_impl; [|exact Hnames]. intros a [Ha _]. exact Ha.
Qed.

Lemma segments_slash_free (l : list string) :
  Forall segment l -> Forall (fun piece => has_char slash piece = false) l.
Proof. apply Forall_impl. intros a [_ Ha]. exact Ha. Qed.

Lemma normalized_segments_normal_form (p : string) :
  normal_form (negb (isAbsolute p)) (normalized_segments p).
Proof. apply normalizeArray_normal_form, split_pieces_slash_free. Qed.

Lemma normalizeArray_drop_first (l : list string) (allow : bool) :
  normalizeArray ("" :: l) allow = normalizeArray l allow.
Proof. reflexivity. Qed.

Lemma normalizeArray_drop_last (l : list string) (allow : bool) :
  normalizeArray (l ++ [""]) allow = normalizeArray l allow.
Proof. now rewrite normalizeArray_snoc. Qed.

(** *** [normalize], unfolded *)

Lemma normalize_unfold (p : string) :
  normalize p =
    let absolute := isAbsolute p in
    let result := JS.join "/" (normalized_segments p) in
    let path := if (result =? "") && negb absolute then "." else result in
    let path := if negb (path =? "") && ends_with slash p
                then path ++ "/" else path in
    (if absolute then "/" else "") ++ path.
Proof.
  unfold normalize, normalized_segments.
  rewrite substr_last_is_slash, !truthy_eqb_empty, negb_involutive.
  reflexivity.
Qed.

Lemma normalize_assemble (p : string) :
  normalize p = assemble (isAbsolute p) (normalized_segments p) (ends_with slash p).
Proof.
  rewrite normalize_unfold. cbv zeta. unfold assemble.
  pose proof (normal_form_segments (normalized_segments_normal_form p)) as Hseg.
  destruct (normalized_segments p) as [|x l] eqn:E.
  - simpl. destruct (isAbsolute p), (ends_with slash p); reflexivity.
  - destruct (JS.join "/" (x :: l) =? "") eqn:Hj.
    + apply String.eqb_eq, join_eq_empty in Hj; [discriminate | assumption].
    + cbn [andb]. rewrite Hj. cbn [andb negb].
      destruct (ends_with slash p); rewrite ?append_empty_r; reflexivity.
Qed.

Lemma join_nonempty (x : string) (l : list string) :
  Forall segment (x :: l) -> JS.join "/" (x :: l) <> "".
Proof. intros H E. apply join_eq_empty in E; [discriminate | assumption]. Qed.

Lemma assemble_parts (a t : bool) (x : string) (l : list string) :
  normal_form (negb a) (x :: l) ->
  isAbsolute (assemble a (x :: l) t) = a
  /\ normalized_segments (assemble a (x :: l) t) = x :: l
  /\ ends_with slash (assemble a (x :: l) t) = t.
Proof.
  intros Hnf.
  pose proof (normal_form_segments Hnf) as Hseg.
  pose proof (segments_slash_free Hseg) as Hfree.
  pose proof (join_nonempty Hseg) as Hne.
  pose proof (join_not_absolute Hseg) as Hrel.
  pose proof (join_no_trailing_slash Hseg) as Hend.
  assert (Hsplit : JS.split slash (JS.join "/" (x :: l)) = x :: l)
    by (apply split_join; [discriminate | assumption]).
  unfold assemble, normalized_segments.
  set (j := JS.join "/" (x :: l)) in *.
  destruct a, t.
  - (* absolute, trailing slash *)
    change ("/" ++ j ++ "/") with (String slash (j ++ String slash "")).
    rewrite isAbsolute_cons. split; [reflexivity | split].
    + change (JS.split slash (String slash (j ++ String slash "")))
        with ("" :: JS.split slash (j ++ String slash "")).
      rewrite split_append_slash, Hsplit.
      rewrite normalizeArray_drop_first.
      change (JS.split slash "") with [""].
      rewrite normalizeArray_drop_last. now apply normal_form_fixed.
    + change (String slash (j ++ String slash ""))
        with ("/" ++ (j ++ String slash "")).
      rewrite <- append_assoc. now rewrite ends_with_append by discriminate.
  - (* absolute, no trailing slash *)
    rewrite append_empty_r.
    change ("/" ++ j) with (String slash j).
    rewrite isAbsolute_cons. split; [reflexivity | split].
    + change (JS.split slash (String slash j)) with ("" :: JS.split slash j).
      rewrite Hsplit, normalizeArray_drop_first. now apply normal_form_fixed.
    + change (String slash j) with ("/" ++ j).
      now rewrite ends_with_append.
  - (* relative, trailing slash *)
    change ("" ++ j ++ "/") with (j ++ String slash "").
    rewrite isAbsolute_append, Hrel by assumption.
    split; [reflexivity | split].
    + rewrite split_append_slash, Hsplit.
      change (JS.split slash "") with [""].
      rewrite normalizeArray_drop_last. now apply normal_form_fixed.
    + now rewrite ends_with_append by discriminate.
  - (* relative, no trailing slash *)
    change ("" ++ j ++ "") with (j ++ ""). rewrite append_empty_r.
    rewrite Hrel. split; [reflexivity | split].
    + rewrite Hsplit. now apply normal_form_fixed.
    + exact Hend.
Qed.

Lemma normalize_assembled (a t : bool) (l : list string) :
  normal_form (negb a) l ->
  normalize (assemble a l t) = assemble a l t.
Proof.
  intros Hnf. destruct l as [|x l].
  - destruct a, t; reflexivity.
  - destruct (@assemble_parts a t x l Hnf) as (Ha & Hs & Ht).
    rewrite normalize_assemble, Ha, Hs, Ht. reflexivity.
Qed.

(** *** [resolve] *)

Lemma resolve_loop_done (env : environment) (pending : list value) (rp : string) :
  resolve_loop env pending rp true = Normal (rp, true).
Proof. destruct pending; reflexivity. Qed.

Lemma absolute_nonempty (s : string) : isAbsolute s = true -> s <> "".
Proof. intros H ->. discriminate. Qed.

Lemma absolute_truthy (s : string) : isAbsolute s = true -> JS.truthy s = true.
Proof. destruct s; [discriminate | reflexivity]. Qed.

Lemma resolve_step_cwd (env : environment) (rp : string) :
  isAbsolute (getCwd env) = true ->
  resolve_step (VString (getCwd env)) rp = Normal (getCwd env ++ "/" ++ rp, true).
Proof.
  intros H. unfold resolve_step. rewrite (absolute_truthy _ H). simpl negb.
  cbv iota. change (JS.charAt (getCwd env) 0 =? "/") with (isAbsolute (getCwd env)).
  now rewrite H.
Qed.

(** With string arguments the loop never throws, and with an absolute
    working directory it ends with [resolvedAbsolute] set. *)
Lemma resolve_loop_strings (env : environment) (pending : list string) (rp : string) :
  exists rp' b,
    resolve_loop env (map VString pending) rp false = Normal (rp', b)
    /\ (isAbsolute (getCwd env) = true -> b = true).
Proof.
  revert rp. induction pending as [|s pending IH]; intros rp.
  - simpl. destruct (JS.truthy (getCwd env)) eqn:Ht; simpl.
    + eexists _, _. split; [reflexivity|]. intros H. exact H.
    + eexists _, _. split; [reflexivity|]. intros H.
      apply absolute_truthy in H. congruence.
  - simpl. destruct (JS.truthy s); simpl.
    + destruct (JS.charAt s 0 =? "/").
      * rewrite resolve_loop_done. eauto.
      * apply IH.
    + apply IH.
Qed.

Lemma resolve_step_string (s rp : string) :
  resolve_step (VString s) rp
  = Normal (if JS.truthy s then (s ++ "/" ++ rp, isAbsolute s) else (rp, false)).
Proof. unfold resolve_step. destruct (JS.truthy s); reflexivity. Qed.

Lemma resolve_single (env : environment) (p : string) :
  isAbsolute (getCwd env) = true ->
  exists T,
    normal_form false T
    /\ resolve env [VString p] = Normal ("/" ++ JS.join "/" T)
    /\ (isAbsolute p = true -> T = normalized_segments p).
Proof.
  intros Hcwd. unfold resolve. cbn [rev app].
  assert (Hloop : exists X,
             resolve_loop env [VString p] "" false = Normal (X, true)
             /\ (isAbsolute p = true -> X = p ++ String slash "")).
  { cbn [resolve_loop]. rewrite resolve_step_string.
    destruct (JS.truthy p) eqn:Hp; cbn [JS.bind fst snd].
    - destruct (isAbsolute p) eqn:Ha.
      + eexists. split; [reflexivity | reflexivity].
      + rewrite resolve_step_cwd by assumption.
        eexists. split; [reflexivity | discriminate].
    - rewrite resolve_step_cwd by assumption.
      eexists. split; [reflexivity|]. intros Ha.
      apply absolute_truthy in Ha. congruence. }
  destruct Hloop as (X & -> & HX). cbn [JS.bind fst snd negb].
  exists (normalizeArray (JS.split slash X) false). repeat split.
  - apply normalizeArray_normal_form, split_pieces_slash_free.
  - intros Ha. rewrite (HX Ha), split_append_slash.
    change (JS.split slash "") with [""].
    rewrite normalizeArray_drop_last.
    unfold normalized_segments. now rewrite Ha.
Qed.

(** *** [relative] *)

Lemma substring_from_one (c : ascii) (s : string) :
  JS.substring_from (String c s) 1 = s.
Proof.
  unfold JS.substring_from.
  replace (Z.min (Z.max 1 0) (Z.of_nat (length (String c s)))) with 1%Z
    by (simpl length; lia).
  replace (Z.of_nat (length (String c s)) - 1)%Z with (Z.of_nat (length s))
    by (simpl length; lia).
  rewrite Nat2Z.id. change (Z.to_nat 1) with 1.
  change (substring 1 (length s) (String c s)) with (substring 0 (length s) s).
  apply substring_zero_all.
Qed.

Lemma leading_empty_segments (l : list string) :
  Forall segment l -> leading_empty l = 0.
Proof.
  intros H. destruct H as [|x l [Hx _] _]; [reflexivity|].
  simpl. apply String.eqb_neq in Hx. now rewrite Hx.
Qed.

Lemma trim_segments (l : list string) : Forall segment l -> trim l = l.
Proof.
  intros H. unfold trim.
  rewrite (leading_empty_segments H).
  rewrite (leading_empty_segments (Forall_rev H)).
  destruct l as [|x l]; [reflexivity|].
  destruct (Z.of_nat 0 >? Z.of_nat (List.length (x :: l)) - 1 - Z.of_nat 0)%Z eqn:E.
  - apply Z.gtb_lt in E. simpl List.length in E. lia.
  - unfold JS.array_slice.
    replace (Z.to_nat (Z.of_nat (List.length (x :: l)) - 1 - Z.of_nat 0 + 1) - 0)
      with (List.length (x :: l)) by lia.
    apply firstn_all.
Qed.

Lemma trim_split_join (l : list string) :
  Forall segment l -> trim (JS.split slash (JS.join "/" l)) = l.
Proof.
  intros H. destruct l as [|x l]; [reflexivity|].
  rewrite split_join.
  - now apply trim_segments.
  - discriminate.
  - now apply segments_slash_free.
Qed.

Lemma samePartsLength_prefix (F T : list string) :
  firstn (samePartsLength F T) F = firstn (samePartsLength F T) T
  /\ samePartsLength F T <= List.length F
  /\ samePartsLength F T <= List.length T.
Proof.
  revert T. induction F as [|f F IH]; intros [|t T]; simpl;
    try (repeat split; (reflexivity || lia)).
  destruct (String.eqb_spec f t) as [-> | Hne]; simpl.
  - destruct (IH T) as (E & H1 & H2). rewrite E. repeat split; (reflexivity || lia).
  - repeat split; (reflexivity || lia).
Qed.

Lemma samePartsLength_refl (P : list string) :
  samePartsLength P P = List.length P.
Proof.
  induction P as [|x P IH]; simpl; [reflexivity|].
  now rewrite String.eqb_refl, IH.
Qed.

Lemma fold_pops (allow : bool) (C popped : list string) :
  Forall name_segment popped ->
  fold_left (normalizeArray_step allow) (repeat ".." (List.length popped))
    (C ++ popped)%list = C.
Proof.
  induction popped as [|x popped IH] using rev_ind; intros H.
  - simpl. apply app_nil_r.
  - apply Forall_app in H. destruct H as [Hpopped Hx].
    inversion Hx as [|? ? [_ [_ Hx']] _]; subst.
    rewrite length_app, Nat.add_1_r. simpl.
    rewrite app_assoc, step_pop by assumption.
    now apply IH.
Qed.

Lemma normal_form_false_names (l : list string) :
  normal_form false l -> Forall name_segment l.
Proof.
  intros (k & names & -> & H & Hk). now rewrite (Hk eq_refl).
Qed.

Lemma names_are_segments (l : list string) :
  Forall name_segment l -> Forall segment l.
Proof. apply Forall_impl. intros a [Ha _]. exact Ha. Qed.

Lemma parent_is_segment : segment "..".
Proof. split; [discriminate | reflexivity]. Qed.

Lemma relative_of_resolved (env : environment) (from to : value) (F T : list string) :
  resolve env [from] = Normal ("/" ++ JS.join "/" F) ->
  resolve env [to] = Normal ("/" ++ JS.join "/" T) ->
  Forall segment F -> Forall segment T ->
  relative env from to =
    Normal (JS.join "/"
              (repeat ".." (List.length F - samePartsLength F T)
               ++ skipn (samePartsLength F T) T)%list).
Proof.
  intros HF HT HsF HsT. unfold relative. rewrite HF, HT. cbn [JS.bind].
  change ("/" ++ JS.join "/" F) with (String slash (JS.join "/" F)).
  change ("/" ++ JS.join "/" T) with (String slash (JS.join "/" T)).
  rewrite !substring_from_one, !trim_split_join by assumption.
  reflexivity.
Qed.

Lemma join_pair (from r : string) :
  from <> "" ->
  join [VString from; VString r]
  = Normal (normalize (if JS.truthy r then from ++ String slash r else from)).
Proof.
  intros H. destruct from as [|c from]; [congruence|].
  destruct r; reflexivity.
Qed.

(** The round trip on the segment lists: appending the output of
    [relative] to the segments of [from] and normalizing gives the
    segments of [to]. *)
Lemma round_trip_segments (F T : list string) :
  Forall name_segment F -> Forall name_segment T ->
  fold_left (normalizeArray_step false)
    (repeat ".." (List.length F - samePartsLength F T)
     ++ skipn (samePartsLength F T) T)%list F = T.
Proof.
  intros HF HT.
  destruct (samePartsLength_prefix F T) as (E & H1 & H2).
  set (k := samePartsLength F T) in *.
  rewrite fold_left_app.
  rewrite <- (firstn_skipn k F) at 2.
  replace (List.length F - k) with (List.length (skipn k F))
    by (rewrite length_skipn; reflexivity).
  rewrite fold_pops.
  - rewrite fold_names.
    + rewrite E. apply firstn_skipn.
    + rewrite <- (firstn_skipn k T) in HT. apply Forall_app in HT. apply HT.
  - rewrite <- (firstn_skipn k F) in HF. apply Forall_app in HF. apply HF.
Qed.

Lemma assemble_plain (l : list string) :
  assemble true l false = "/" ++ JS.join "/" l.
Proof.
  unfold assemble. destruct l; [reflexivity|]. now rewrite append_empty_r.
Qed.

Lemma relative_output_segments (T : list string) (n k : nat) :
  Forall segment T -> Forall segment (repeat ".." n ++ skipn k T)%list.
Proof.
  intros HT. apply Forall_app. split.
  - apply Forall_forall. intros x Hx. apply repeat_spec in Hx. subst.
    apply parent_is_segment.
  - rewrite <- (firstn_skipn k T) in HT. apply Forall_app in HT. apply HT.
Qed.

(** For an absolute [from], joining [from] with a non-empty output of
    [relative] normalizes to the resolved [to]. *)
Lemma normalize_from_relative (from : string) (T out : list string) :
  isAbsolute from = true ->
  Forall segment out -> out <> [] ->
  fold_left (normalizeArray_step false) out (normalized_segments from) = T ->
  normalize (from ++ String slash (JS.join "/" out)) = "/" ++ JS.join "/" T.
Proof.
  intros Ha Hout Hne Hfold.
  assert (Hj : JS.join "/" out <> "").
  { intros E. apply join_eq_empty in E; congruence. }
  rewrite normalize_assemble.
  assert (Habs : isAbsolute (from ++ String slash (JS.join "/" out)) = true).
  { rewrite isAbsolute_append by now apply absolute_nonempty. exact Ha. }
  assert (Hend : ends_with slash (from ++ String slash (JS.join "/" out)) = false).
  { rewrite ends_with_append by discriminate.
    change (String slash (JS.join "/" out)) with ("/" ++ JS.join "/" out).
    rewrite ends_with_append by assumption.
    now apply join_no_trailing_slash. }
  assert (Hseg : normalized_segments (from ++ String slash (JS.join "/" out)) = T).
  { unfold normalized_segments. rewrite Habs, split_append_slash.
    rewrite split_join by (assumption || now apply segments_slash_free).
    unfold normalizeArray. rewrite fold_left_app.
    unfold normalized_segments, normalizeArray in Hfold.
    rewrite Ha in Hfold. exact Hfold. }
  rewrite Habs, Hend, Hseg. apply assemble_plain.
Qed.

(** *** The matcher on quantified classes *)

Import RegExp.

Lemma greedy_star_cons (cs : charset) (a : ascii) (s : string)
    (caps : captures) (k : cont) :
  rep_match cs true 0 None (String a s) caps k =
    if cs a
    then match rep_match cs true 0 None s caps k with
         | Some r => Some r
         | None => k (String a s) caps
         end
    else k (String a s) caps.
Proof. simpl. destruct (cs a); reflexivity. Qed.

Lemma lazy_star_nil (cs : charset) (caps : captures) (k : cont) :
  rep_match cs false 0 None "" caps k = k "" caps.
Proof. simpl. destruct (k "" caps); reflexivity. Qed.

Lemma lazy_star_cons (cs : charset) (a : ascii) (s : string)
    (caps : captures) (k : cont) :
  rep_match cs false 0 None (String a s) caps k =
    match k (String a s) caps with
    | Some r => Some r
    | None => if cs a then rep_match cs false 0 None s caps k else None
    end.
Proof. simpl. destruct (k (String a s) caps), (cs a); reflexivity. Qed.

Lemma one_class (cs : charset) (s : string) (caps : captures) (k : cont) :
  rep_match cs true 1 (Some 1) s caps k =
    match s with
    | String a s' => if cs a then k s' caps else None
    | EmptyString => None
    end.
Proof.
  destruct s as [|a s']; [reflexivity|].
  simpl. destruct (cs a); [|reflexivity].
  destruct s'; simpl; destruct (k _ caps); reflexivity.
Qed.

Lemma two_class (cs : charset) (s : string) (caps : captures) (k : cont) :
  rep_match cs true 1 (Some 2) s caps k =
    match s with
    | String a s' =>
        if cs a then
          match s' with
          | String a' s'' =>
              if cs a'
              then match k s'' caps with Some r => Some r | None => k s' caps end
              else k s' caps
          | EmptyString => k s' caps
          end
        else None
    | EmptyString => None
    end.
Proof.
  destruct s as [|a s']; [reflexivity|].
  simpl. destruct (cs a); [|reflexivity].
  destruct s' as [|a' s'']; simpl.
  - destruct (k "" caps); reflexivity.
  - destruct (cs a').
    + destruct s''; simpl; destruct (k _ caps); try reflexivity;
        destruct (k _ caps); reflexivity.
    + destruct (k _ caps); reflexivity.
Qed.

Lemma lazy_plus (cs : charset) (s : string) (caps : captures) (k : cont) :
  rep_match cs false 1 None s caps k =
    match s with
    | String a s' => if cs a then rep_match cs false 0 None s' caps k else None
    | EmptyString => None
    end.
Proof.
  destruct s as [|a s']; [reflexivity|].
  simpl. destruct (cs a); reflexivity.
Qed.

Lemma optional_class (cs : charset) (s : string) (caps : captures) (k : cont) :
  rep_match cs true 0 (Some 1) s caps k =
    match s with
    | String a s' =>
        if cs a
        then match k s' caps with Some r => Some r | None => k s caps end
        else k s caps
    | EmptyString => k s caps
    end.
Proof.
  destruct s as [|a s']; [reflexivity|].
  simpl. destruct (cs a); [|reflexivity].
  destruct s'; simpl; destruct (k _ caps); reflexivity.
Qed.

Lemma exec_from_unfold (input : string) (groups : nat) (r : regex) (s : string) :
  exec_from input groups r s =
    match run input r s (repeat None (S groups))
            (fun s' caps => Some (set_capture 0 (consumed s s') caps)) with
    | Some m => Some m
    | None =>
        match s with
        | String _ s' => exec_from input groups r s'
        | EmptyString => None
        end
    end.
Proof. destruct s; reflexivity. Qed.

(** A greedy star in front of a continuation that rejects every string
    starting in the class ends up at the end of the longest run. *)
Lemma greedy_star_run (cs : charset) (s : string) (caps : captures) (k : cont) :
  (forall a s', cs a = true -> k (String a s') caps = None) ->
  rep_match cs true 0 None s caps k = k (drop_while cs s) caps.
Proof.
  intros Hk. induction s as [|a s IH].
  - reflexivity.
  - rewrite greedy_star_cons. simpl drop_while.
    destruct (cs a) eqn:Ha; [|reflexivity].
    rewrite IH. destruct (k (drop_while cs s) caps) eqn:E; [reflexivity|].
    now apply Hk.
Qed.

(** *** Prefixes, suffixes and classes *)

Lemma take_drop_while (f : ascii -> bool) (s : string) :
  take_while f s ++ drop_while f s = s.
Proof.
  induction s as [|c s IH]; [reflexivity|].
  simpl. destruct (f c); [simpl; now rewrite IH | reflexivity].
Qed.

Lemma all_of_append (f : ascii -> bool) (a b : string) :
  all_of f (a ++ b) = all_of f a && all_of f b.
Proof.
  induction a as [|c a IH]; [reflexivity|].
  simpl. now rewrite IH, andb_assoc.
Qed.

Lemma drop_while_all (f : ascii -> bool) (s : string) :
  all_of f s = true -> drop_while f s = "".
Proof.
  induction s as [|c s IH]; [reflexivity|].
  simpl. destruct (f c); [exact IH | discriminate].
Qed.

Lemma all_of_drop_while (f : ascii -> bool) (s : string) :
  drop_while f s = "" -> all_of f s = true.
Proof.
  induction s as [|c s IH]; [reflexivity|].
  simpl. destruct (f c); [exact IH | discriminate].
Qed.

Lemma consumed_append (a b : string) : consumed (a ++ b) b = a.
Proof.
  unfold consumed. rewrite append_length.
  replace (length a + length b - length b) with (length a) by lia.
  apply substring_zero_append.
Qed.

Lemma consumed_all (s : string) : consumed s "" = s.
Proof.
  rewrite <- (append_empty_r s) at 1. apply consumed_append.
Qed.

Lemma consumed_none (s : string) : consumed s s = "".
Proof. apply (consumed_append "" s). Qed.

Lemma drop_not_slash_shape (s : string) : slashes_then (drop_while not_slash s).
Proof.
  induction s as [|c s IH]; [now left|].
  simpl. unfold not_slash at 1.
  destruct (Ascii.eqb_spec c slash) as [-> | Hne]; simpl.
  - right. eauto.
  - exact IH.
Qed.

Lemma take_not_slash_free (s : string) :
  has_char slash (take_while not_slash s) = false.
Proof.
  induction s as [|c s IH]; [reflexivity|].
  simpl. unfold not_slash at 1.
  destruct (Ascii.eqb c slash) eqn:E; simpl; [reflexivity|].
  now rewrite E, IH.
Qed.

(** *** Extensions *)

Lemma dot_suffix_none (w : string) :
  has_char dot w = false -> dot_suffix w = "".
Proof.
  induction w as [|c w IH]; [reflexivity|].
  simpl. intros H. apply orb_false_iff in H. destruct H as [Hc Hw].
  now rewrite Hw, Hc.
Qed.

Lemma dot_suffix_ext (u : string) : is_ext u = true -> dot_suffix u = u.
Proof.
  destruct u as [|a w]; [reflexivity|].
  simpl. intros H. apply andb_true_iff in H. destruct H as [Ha Hw].
  apply negb_true_iff in Hw. now rewrite Hw, Ha.
Qed.

Lemma dot_suffix_not_ext (a : ascii) (w : string) :
  is_ext (String a w) = false -> dot_suffix (String a w) = dot_suffix w.
Proof.
  simpl. intros H. destruct (has_char dot w) eqn:Hw; [reflexivity|].
  rewrite andb_true_r in H. rewrite H. symmetry. now apply dot_suffix_none.
Qed.

Lemma extension_cons (a : ascii) (b' : string) :
  String a b' <> ".." -> extension (String a b') = dot_suffix b'.
Proof.
  intros H. unfold extension. apply String.eqb_neq in H. now rewrite H.
Qed.

Lemma is_ext_has_dot (a : ascii) (w : string) :
  is_ext (String a w) = true -> has_char dot (String a w) = true.
Proof.
  simpl. intros H. apply andb_true_iff in H. destruct H as [-> _]. reflexivity.
Qed.

Lemma split_dir_here (s : string) :
  all_of is_slash (drop_while not_slash s) = true ->
  split_dir s = ("", take_while not_slash s).
Proof.
  intros H. destruct s as [|c s]; [reflexivity|].
  cbn [split_dir]. rewrite H. reflexivity.
Qed.

Lemma split_dir_later (a : ascii) (s : string) :
  all_of is_slash (drop_while not_slash (String a s)) = false ->
  split_dir (String a s)
  = (String a (fst (split_dir s)), snd (split_dir s)).
Proof.
  intros H. cbn [split_dir]. rewrite H.
  destruct (split_dir s); reflexivity.
Qed.

(** *** [splitPathRe], group by group *)

Section SplitPath.

(** The subject string of the match. *)
Variable p : string.

(** The continuation at the end of the pattern: element 0 of the match
    array is the whole match. *)
Definition finish : cont :=
  fun s' caps => Some (set_capture 0 (consumed p s') caps).

Lemma tail_spec (s : string) (c0 c1 c2 c3 c4 : option string) :
  run p tail_re s [c0; c1; c2; c3; c4] finish
  = if all_of is_slash s then Some [Some p; c1; c2; c3; c4] else None.
Proof.
  unfold tail_re. cbn [run]. rewrite greedy_star_run.
  - destruct (drop_while is_slash s) eqn:E.
    + rewrite (all_of_drop_while _ _ E). unfold finish.
      rewrite consumed_all. reflexivity.
    + destruct (all_of is_slash s) eqn:A; [|reflexivity].
      apply drop_while_all in A. congruence.
  - reflexivity.
Qed.

Lemma drop_nds_plain (w sl : string) :
  has_char dot w = false -> has_char slash w = false -> slashes_then sl ->
  drop_while not_dot_slash (w ++ sl) = sl.
Proof.
  intros Hd Hs Hsl. induction w as [|c w IH].
  - destruct Hsl as [-> | [sl' ->]]; reflexivity.
  - simpl in Hd, Hs. apply orb_false_iff in Hd, Hs.
    destruct Hd as [Hd1 Hd2], Hs as [Hs1 Hs2].
    simpl. unfold not_dot_slash at 1. rewrite Hd1, Hs1. simpl.
    now apply IH.
Qed.

Lemma drop_nds_dot (w sl : string) :
  has_char dot w = true -> has_char slash w = false ->
  exists r, drop_while not_dot_slash (w ++ sl) = String dot r.
Proof.
  intros Hd Hs. induction w as [|c w IH]; [discriminate|].
  simpl in Hd, Hs. apply orb_false_iff in Hs. destruct Hs as [Hs1 Hs2].
  simpl. unfold not_dot_slash at 1. rewrite Hs1.
  destruct (Ascii.eqb_spec c dot) as [-> | Hne]; simpl.
  - eauto.
  - apply IH; assumption.
Qed.

Lemma ext_spec (t pre u sl : string) (c0 c1 c2 c3 c4 : option string) :
  t = pre ++ u ++ sl -> has_char slash u = false -> slashes_then sl ->
  run p ext_re (u ++ sl) [c0; c1; c2; c3; c4]
    (fun s' c' => run p tail_re s' (set_capture 3 (consumed t s') c') finish)
  = if all_of is_slash sl && is_ext u
    then Some [Some p; c1; c2; Some (pre ++ u); Some u]
    else None.
Proof.
  intros Ht Hu Hsl. unfold ext_re. cbn [run].
  rewrite one_class, consumed_none.
  replace (consumed t (u ++ sl)) with pre by (subst t; now rewrite consumed_append).
  cbn [set_capture]. rewrite tail_spec.
  destruct u as [|a w].
  - change ("" ++ sl) with sl. rewrite append_empty_r, andb_true_r.
    destruct Hsl as [-> | [sl' ->]]; reflexivity.
  - change (String a w ++ sl) with (String a (w ++ sl)).
    simpl in Hu. apply orb_false_iff in Hu. destruct Hu as [Ha Hw].
    assert (Hfall : all_of is_slash (String a (w ++ sl)) = false).
    { simpl. unfold is_slash at 1. now rewrite Ha. }
    rewrite Hfall. unfold is_ext.
    destruct (is_dot a) eqn:Hdot; unfold is_dot in Hdot; rewrite Hdot.
    2:{ now rewrite andb_false_r. }
    rewrite greedy_star_run.
    + destruct (has_char dot w) eqn:Hd.
      * destruct (@drop_nds_dot w sl Hd Hw) as [r ->].
        cbn [set_capture]. rewrite tail_spec. simpl. now rewrite andb_false_r.
      * rewrite (@drop_nds_plain w sl Hd Hw Hsl).
        replace (consumed t sl) with (pre ++ String a w)
          by (subst t; now rewrite <- append_assoc, consumed_append).
        change (String a (w ++ sl)) with (String a w ++ sl).
        rewrite consumed_append. cbn [set_capture]. rewrite tail_spec.
        simpl. rewrite andb_true_r.
        destruct (all_of is_slash sl); reflexivity.
    + intros x s' Hx. cbn [set_capture]. rewrite tail_spec.
      simpl. unfold not_dot_slash in Hx. unfold is_slash at 1.
      apply andb_true_iff in Hx. destruct Hx as [_ Hx].
      apply negb_true_iff in Hx. now rewrite Hx.
Qed.

(** The lazy scan of [stem_re]: the stem stops at the first position
    from which [ext_re] and [tail_re] match what is left. *)
Lemma scan_spec (t u sl : string) (c0 c1 c2 c3 c4 : option string) :
  has_char slash u = false -> slashes_then sl ->
  forall pre, t = pre ++ u ++ sl ->
  rep_match not_slash false 0 None (u ++ sl) [c0; c1; c2; c3; c4]
    (fun s1 c1' => run p ext_re s1 c1'
       (fun s' c' => run p tail_re s' (set_capture 3 (consumed t s') c') finish))
  = if all_of is_slash sl
    then Some [Some p; c1; c2; Some (pre ++ u); Some (dot_suffix u)]
    else None.
Proof.
  intros Hu Hsl. induction u as [|a w IH]; intros pre Ht.
  - change ("" ++ sl) with sl.
    pose proof (@ext_spec t pre "" sl c0 c1 c2 c3 c4 Ht eq_refl Hsl) as HE.
    change ("" ++ sl) with sl in HE. rewrite andb_true_r in HE.
    destruct Hsl as [-> | [sl' ->]].
    + rewrite lazy_star_nil, HE. reflexivity.
    + rewrite lazy_star_cons, HE.
      destruct (all_of is_slash (String slash sl')); reflexivity.
  - pose proof (@ext_spec t pre (String a w) sl c0 c1 c2 c3 c4 Ht Hu Hsl) as HE.
    change (String a w ++ sl) with (String a (w ++ sl)) in *.
    rewrite lazy_star_cons, HE.
    simpl in Hu. apply orb_false_iff in Hu. destruct Hu as [Ha Hw].
    assert (Hns : not_slash a = true) by (unfold not_slash; now rewrite Ha).
    rewrite Hns.
    assert (Ht' : t = (pre ++ String a "") ++ w ++ sl)
      by (rewrite Ht, append_assoc; reflexivity).
    rewrite (IH Hw _ Ht').
    replace ((pre ++ String a "") ++ w) with (pre ++ String a w)
      by (rewrite append_assoc; reflexivity).
    destruct (all_of is_slash sl); [|reflexivity].
    destruct (is_ext (String a w)) eqn:Hext; simpl andb; cbv iota.
    + now rewrite (dot_suffix_ext _ Hext).
    + now rewrite (dot_suffix_not_ext _ _ Hext).
Qed.

Lemma base_spec (b sl : string) (c0 c1 c2 c3 c4 : option string) :
  has_char slash b = false -> slashes_then sl ->
  run p base_re (b ++ sl) [c0; c1; c2; c3; c4]
    (fun s3 c3' => run p tail_re s3 c3' finish)
  = if all_of is_slash sl
    then Some [Some p; c1; c2; Some b; Some (extension b)]
    else None.
Proof.
  intros Hb Hsl. unfold base_re. cbn [run]. unfold stem_re. cbn [run].
  set (t := b ++ sl).
  set (K := fun (s1 : string) (c1' : captures) => run p ext_re s1 c1' _).
  assert (HE : forall pre u, t = pre ++ u ++ sl -> has_char slash u = false ->
             K (u ++ sl) [c0; c1; c2; c3; c4]
             = if all_of is_slash sl && is_ext u
               then Some [Some p; c1; c2; Some (pre ++ u); Some u] else None).
  { intros pre u Ht Hu. now apply ext_spec. }
  assert (HS : forall pre u, t = pre ++ u ++ sl -> has_char slash u = false ->
             rep_match not_slash false 0 None (u ++ sl) [c0; c1; c2; c3; c4] K
             = if all_of is_slash sl
               then Some [Some p; c1; c2; Some (pre ++ u); Some (dot_suffix u)]
               else None).
  { intros pre u Ht Hu. now apply scan_spec. }
  assert (Hwhole : K t [c0; c1; c2; c3; c4]
             = if all_of is_slash sl && is_ext b
               then Some [Some p; c1; c2; Some b; Some b] else None).
  { apply (HE "" b); [reflexivity | assumption]. }
  rewrite two_class, lazy_plus.
  change (run p ext_re t _ _) with (K t [c0; c1; c2; c3; c4]).
  rewrite Hwhole. clear Hwhole. clearbody K. subst t.
  destruct b as [|a b'].
  - (* no component *)
    change ("" ++ sl) with sl. rewrite andb_true_r.
    destruct Hsl as [-> | [sl' ->]]; simpl;
      destruct (all_of is_slash _); reflexivity.
  - change (String a b' ++ sl) with (String a (b' ++ sl)). cbv iota.
    pose proof Hb as Hb0.
    simpl in Hb. apply orb_false_iff in Hb. destruct Hb as [Ha Hb'].
    assert (Hns : not_slash a = true) by (unfold not_slash; now rewrite Ha).
    rewrite Hns.
    pose proof (HS (String a "") b' eq_refl Hb') as Hscan.
    change (String a "" ++ b') with (String a b') in Hscan.
    rewrite Hscan. clear Hscan.
    destruct (is_dot a) eqn:Hdot.
    2:{ (* the component does not start with a dot *)
        rewrite extension_cons.
        - destruct (all_of is_slash sl); reflexivity.
        - intros E. inversion E; subst. discriminate. }
    unfold is_dot in Hdot. apply Ascii.eqb_eq in Hdot. subst a.
    destruct b' as [|a' b''].
    + (* the component is "." *)
      pose proof (HE "." "" eq_refl eq_refl) as H1.
      change ("" ++ sl) with sl in *. rewrite andb_true_r in H1.
      destruct Hsl as [-> | [sl' ->]]; simpl; rewrite H1;
        destruct (all_of is_slash _); reflexivity.
    + change (String a' b'' ++ sl) with (String a' (b'' ++ sl)). cbv iota.
      simpl in Hb'. apply orb_false_iff in Hb'. destruct Hb' as [Ha' Hb''].
      assert (Hb1 : has_char slash (String a' b'') = false)
        by (simpl; now rewrite Ha', Hb'').
      pose proof (HE "." (String a' b'') eq_refl Hb1) as H1.
      change (String a' b'' ++ sl) with (String a' (b'' ++ sl)) in H1.
      change ("." ++ String a' b'') with (String dot (String a' b'')) in H1.
      rewrite H1. clear H1.
      destruct (is_dot a') eqn:Hdot'.
      2:{ (* one leading dot, then another character *)
          assert (Hne : is_ext (String a' b'') = false).
          { unfold is_ext. unfold is_dot in Hdot'. now rewrite Hdot'. }
          rewrite Hne, andb_false_r, extension_cons.
          - destruct (all_of is_slash sl); reflexivity.
          - intros E. inversion E; subst. discriminate. }
      unfold is_dot in Hdot'. apply Ascii.eqb_eq in Hdot'. subst a'.
      (* two leading dots *)
      pose proof (HE ".." b'' eq_refl Hb'') as H2.
      change (".." ++ b'') with (String dot (String dot b'')) in H2.
      rewrite H2. clear H2.
      destruct (all_of is_slash sl); [|reflexivity]. cbn [andb].
      destruct b'' as [|x w]; [reflexivity|].
      rewrite extension_cons
        by (intros E; inversion E).
      destruct (is_ext (String x w)) eqn:Hx.
      * change (dot_suffix (String dot (String x w)))
          with (if has_char dot (String x w) then dot_suffix (String x w)
                else String dot (String x w)).
        rewrite (is_ext_has_dot _ _ Hx), (dot_suffix_ext _ Hx). reflexivity.
      * destruct (is_ext (String dot (String x w))) eqn:Hd; [|reflexivity].
        now rewrite (dot_suffix_ext _ Hd).
Qed.

Lemma component_spec (s : string) (c0 c1 c2 c3 c4 : option string) :
  run p base_re s [c0; c1; c2; c3; c4]
    (fun s3 c3' => run p tail_re s3 c3' finish)
  = if all_of is_slash (drop_while not_slash s)
    then Some [Some p; c1; c2; Some (take_while not_slash s);
               Some (extension (take_while not_slash s))]
    else None.
Proof.
  rewrite <- (take_drop_while not_slash s) at 1.
  apply base_spec.
  - apply take_not_slash_free.
  - apply drop_not_slash_shape.
Qed.

(** The lazy directory group stops at the first position from which
    the rest of the pattern matches. *)
Lemma dir_spec (r0 s : string) (c0 c1 c2 c3 c4 : option string) :
  forall pre, r0 = pre ++ s ->
  rep_match any_char false 0 None s [c0; c1; c2; c3; c4]
    (fun s' c' =>
       run p base_re s' (set_capture 2 (consumed r0 s') c')
         (fun s3 c3' => run p tail_re s3 c3' finish))
  = Some [Some p; c1; Some (pre ++ fst (split_dir s));
          Some (snd (split_dir s)); Some (extension (snd (split_dir s)))].
Proof.
  induction s as [|a s IH]; intros pre Hr.
  - rewrite lazy_star_nil. cbn [set_capture]. rewrite component_spec.
    rewrite Hr, consumed_all. reflexivity.
  - rewrite lazy_star_cons. cbn [set_capture]. rewrite component_spec.
    replace (consumed r0 (String a s)) with pre
      by (subst r0; now rewrite consumed_append).
    destruct (all_of is_slash (drop_while not_slash (String a s))) eqn:E.
    + rewrite (split_dir_here _ E). cbn [fst snd].
      now rewrite append_empty_r.
    + rewrite (split_dir_later _ _ E). cbn [fst snd].
      change (any_char a) with true. cbv iota.
      rewrite (IH (pre ++ String a ""))
        by (rewrite Hr, append_assoc; reflexivity).
      now rewrite append_assoc.
Qed.

End SplitPath.

(** [posixSplitPath] never throws, and returns the four parts that
    [split_path] computes directly. *)
Lemma posixSplitPath_spec (p : string) :
  posixSplitPath p = Normal (split_path p).
Proof.
  unfold posixSplitPath, exec. rewrite exec_from_unfold.
  unfold splitPathRe. cbn [run]. rewrite Nat.eqb_refl.
  unfold root_re, dir_re. cbn [run repeat].
  rewrite optional_class, consumed_none. cbn [set_capture].
  unfold split_path.
  destruct p as [|a p'].
  - rewrite (@dir_spec "" "" "" _ _ _ _ _ "" eq_refl).
    reflexivity.
  - rewrite isAbsolute_cons. unfold is_slash at 1.
    destruct (Ascii.eqb a slash) eqn:Ha.
    + apply Ascii.eqb_eq in Ha. subst a.
      replace (consumed (String slash p') p') with "/"
        by (symmetry; exact (consumed_append "/" p')).
      rewrite (@dir_spec (String slash p') p' p' _ _ _ _ _ "" eq_refl).
      rewrite substring_from_one.
      destruct (split_dir p'); reflexivity.
    + rewrite (@dir_spec (String a p') (String a p') (String a p') _ _ _ _ _ "" eq_refl).
      destruct (split_dir (String a p')); reflexivity.
Qed.

(** *** The parts of a decomposed path *)

Lemma has_char_append (c : ascii) (a b : string) :
  has_char c (a ++ b) = has_char c a || has_char c b.
Proof.
  induction a as [|x a IH]; [reflexivity|].
  simpl. now rewrite IH, orb_assoc.
Qed.

Lemma all_slashes_shape (sl : string) :
  all_of is_slash sl = true -> slashes_then sl.
Proof.
  destruct sl as [|c sl]; [now left|].
  simpl. intros H. apply andb_true_iff in H. destruct H as [Hc _].
  apply Ascii.eqb_eq in Hc. subst c. right. eauto.
Qed.

Lemma component_then_slashes (b sl : string) :
  has_char slash b = false -> all_of is_slash sl = true ->
  take_while not_slash (b ++ sl) = b /\ drop_while not_slash (b ++ sl) = sl.
Proof.
  intros Hb Hsl. induction b as [|c b IH].
  - destruct (all_slashes_shape _ Hsl) as [-> | [sl' ->]]; split; reflexivity.
  - simpl in Hb. apply orb_false_iff in Hb. destruct Hb as [Hc Hb].
    destruct (IH Hb) as [IH1 IH2].
    simpl. unfold not_slash at 1 3. rewrite Hc. simpl.
    now rewrite IH1, IH2.
Qed.

Lemma segment_not_slashes (b : string) :
  segment b -> all_of is_slash b = false.
Proof.
  intros [Hne Hb]. destruct b as [|c b]; [congruence|].
  simpl in Hb. apply orb_false_iff in Hb. destruct Hb as [Hc _].
  simpl. unfold is_slash at 1. now rewrite Hc.
Qed.

Lemma not_split_before_slash (x b sl : string) :
  has_char slash x = true -> segment b ->
  all_of is_slash (drop_while not_slash (x ++ b ++ sl)) = false.
Proof.
  intros Hx Hb. induction x as [|c x IH]; [discriminate|].
  simpl. unfold not_slash at 1.
  destruct (Ascii.eqb c slash) eqn:Hc; simpl.
  - rewrite !all_of_append, (segment_not_slashes Hb).
    now rewrite andb_false_r, andb_false_r.
  - simpl in Hx. rewrite Hc in Hx. now apply IH.
Qed.

Lemma ends_with_tail (c a : ascii) (s : string) :
  ends_with c (String a s) = true -> s = "" \/ ends_with c s = true.
Proof. destruct s; [now left | now right]. Qed.

Lemma split_dir_decompose (d b sl : string) :
  d = "" \/ ends_with slash d = true ->
  segment b -> all_of is_slash sl = true ->
  split_dir (d ++ b ++ sl) = (d, b).
Proof.
  intros Hd Hb Hsl. induction d as [|c d IH].
  - change ("" ++ b ++ sl) with (b ++ sl).
    destruct (component_then_slashes b sl (proj2 Hb) Hsl) as [Ht Hdrop].
    rewrite split_dir_here by (now rewrite Hdrop).
    now rewrite Ht.
  - destruct Hd as [Hd | Hd]; [discriminate|].
    change (String c d ++ b ++ sl) with (String c (d ++ b ++ sl)).
    rewrite split_dir_later.
    + rewrite IH by (now apply ends_with_tail in Hd). reflexivity.
    + change (String c (d ++ b ++ sl)) with (String c d ++ b ++ sl).
      apply not_split_before_slash; [|assumption].
      now apply ends_with_has_char.
Qed.

Lemma final_component_decompose (d b sl : string) :
  d = "" \/ ends_with slash d = true ->
  segment b -> all_of is_slash sl = true ->
  final_component (d ++ b ++ sl) = b.
Proof.
  intros Hd Hb Hsl. unfold final_component.
  destruct d as [|c d].
  - change ("" ++ b ++ sl) with (b ++ sl).
    rewrite isAbsolute_append by apply Hb.
    rewrite (segment_not_absolute Hb).
    pose proof (@split_dir_decompose "" b sl (or_introl eq_refl) Hb Hsl) as E.
    change ("" ++ b ++ sl) with (b ++ sl) in E. now rewrite E.
  - change (String c d ++ b ++ sl) with (String c (d ++ b ++ sl)).
    rewrite isAbsolute_cons. destruct (Ascii.eqb c slash) eqn:Hc.
    + rewrite substring_from_one.
      rewrite split_dir_decompose; auto.
      destruct Hd as [Hd | Hd]; [discriminate|]. now apply ends_with_tail in Hd.
    + change (String c (d ++ b ++ sl)) with (String c d ++ b ++ sl).
      now rewrite split_dir_decompose.
Qed.

Lemma final_component_slashes (p : string) :
  all_of is_slash p = true -> final_component p = "".
Proof.
  intros H. unfold final_component.
  assert (Hrest : forall s, all_of is_slash s = true -> snd (split_dir s) = "").
  { intros s Hs.
    destruct (component_then_slashes "" s eq_refl Hs) as [Ht Hdrop].
    change ("" ++ s) with s in Ht, Hdrop.
    rewrite split_dir_here by (now rewrite Hdrop). now rewrite Ht. }
  destruct p as [|c p]; [reflexivity|].
  rewrite isAbsolute_cons. simpl in H. apply andb_true_iff in H.
  destruct H as [Hc Hp]. unfold is_slash in Hc. rewrite Hc, substring_from_one.
  now apply Hrest.
Qed.

Lemma split_path_parts (p : string) :
  exists root d,
    split_path p = [Some root; Some d; Some (final_component p);
                    Some (extension (final_component p))].
Proof.
  unfold split_path, final_component.
  destruct (split_dir _) as [d b]. eauto.
Qed.

Lemma extname_spec (p : string) :
  extname p = Normal (VString (extension (final_component p))).
Proof.
  unfold extname. rewrite posixSplitPath_spec.
  destruct (split_path_parts p) as (root & d & ->). reflexivity.
Qed.

(** *** [extension], case by case *)

Lemma dot_suffix_last (x s : string) :
  has_char dot s = false -> dot_suffix (x ++ String dot s) = String dot s.
Proof.
  intros Hs. induction x as [|c x IH].
  - simpl. now rewrite Hs.
  - change (String c x ++ String dot s) with (String c (x ++ String dot s)).
    cbn [dot_suffix]. rewrite has_char_append. simpl has_char at 2.
    rewrite orb_true_r. exact IH.
Qed.

Lemma extension_no_dot (b : string) :
  has_char dot b = false -> extension b = "".
Proof.
  intros H. destruct b as [|c b]; [reflexivity|].
  unfold extension. destruct (String c b =? ".."); [reflexivity|].
  simpl in H. apply orb_false_iff in H. now apply dot_suffix_none.
Qed.

Lemma extension_leading_dot (r : string) :
  has_char dot r = false -> extension (String dot r) = "".
Proof.
  intros H. unfold extension. destruct (String dot r =? ".."); [reflexivity|].
  now apply dot_suffix_none.
Qed.

Lemma extension_last_dot (n s : string) :
  n <> "" -> n ++ String dot s <> ".." -> has_char dot s = false ->
  extension (n ++ String dot s) = String dot s.
Proof.
  intros Hn Hne Hs. destruct n as [|c n]; [congruence|].
  change (String c n ++ String dot s) with (String c (n ++ String dot s)) in *.
  rewrite extension_cons by assumption. now apply dot_suffix_last.
Qed.

(** *** [basename] *)

Lemma substr_whole_from_end (f : string) :
  JS.substr f (-1 * Z.of_nat (length f)) None = f.
Proof.
  unfold JS.substr.
  destruct (-1 * Z.of_nat (length f) <? 0)%Z eqn:E.
  - replace (Z.max (Z.of_nat (length f) + -1 * Z.of_nat (length f)) 0) with 0%Z by lia.
    rewrite Z.sub_0_r, Nat2Z.id. apply substring_zero_all.
  - apply Z.ltb_ge in E.
    replace (Z.min (-1 * Z.of_nat (length f)) (Z.of_nat (length f)))
      with 0%Z by lia.
    rewrite Z.sub_0_r, Nat2Z.id. apply substring_zero_all.
Qed.

Lemma substr_nothing (f : string) :
  JS.substr f 0 (Some (Z.of_nat (length f) - Z.of_nat (length f))%Z) = "".
Proof.
  unfold JS.substr. rewrite Z.sub_diag. simpl.
  destruct f; reflexivity.
Qed.

(** *** [parse] and [format] on a decomposed path *)

Lemma split_path_decompose (d b sl : string) :
  d = "" \/ ends_with slash d = true ->
  segment b -> all_of is_slash sl = true ->
  split_path (d ++ b ++ sl)
  = [Some (if isAbsolute d then "/" else "");
     Some (if isAbsolute d then JS.substring_from d 1 else d);
     Some b; Some (extension b)].
Proof.
  intros Hd Hb Hsl. unfold split_path.
  destruct d as [|c d].
  - change ("" ++ b ++ sl) with (b ++ sl).
    rewrite isAbsolute_append by apply Hb.
    rewrite (segment_not_absolute Hb).
    pose proof (@split_dir_decompose "" b sl (or_introl eq_refl) Hb Hsl) as E.
    change ("" ++ b ++ sl) with (b ++ sl) in E. now rewrite E.
  - change (String c d ++ b ++ sl) with (String c (d ++ b ++ sl)).
    rewrite !isAbsolute_cons. destruct (Ascii.eqb c slash) eqn:Hc.
    + rewrite !substring_from_one.
      rewrite split_dir_decompose; auto.
      destruct Hd as [Hd | Hd]; [discriminate|]. now apply ends_with_tail in Hd.
    + change (String c (d ++ b ++ sl)) with (String c d ++ b ++ sl).
      now rewrite split_dir_decompose.
Qed.

Lemma slice_drop_last (x : string) :
  JS.slice (x ++ "/") 0 (Z.of_nat (length (x ++ "/")) - 1) = x.
Proof.
  unfold JS.slice. rewrite append_length. simpl length.
  change (0 <? 0)%Z with false. cbv iota.
  destruct (Z.of_nat (length x + 1) - 1 <? 0)%Z eqn:E.
  - apply Z.ltb_lt in E. lia.
  - replace (Z.max (Z.min (Z.of_nat (length x + 1) - 1) (Z.of_nat (length x + 1))
                    - Z.min 0 (Z.of_nat (length x + 1))) 0)
      with (Z.of_nat (length x)) by lia.
    replace (Z.min 0 (Z.of_nat (length x + 1))) with 0%Z by lia.
    rewrite Nat2Z.id. apply substring_zero_append.
Qed.

Lemma ends_with_snoc (c : ascii) (x : string) :
  ends_with c (x ++ String c "") = true.
Proof.
  rewrite ends_with_append by discriminate. simpl. apply Ascii.eqb_refl.
Qed.

Lemma format_parse_decomposed (d b : string) :
  segment b ->
  d = "" \/ (exists d0, d0 <> "" /\ d = d0 ++ "/") ->
  (o <- parse (VString (d ++ b)) ;; format o) = Normal (d ++ b).
Proof.
  intros Hb Hd. unfold parse. rewrite posixSplitPath_spec.
  rewrite <- (append_empty_r b) at 1.
  destruct Hd as [-> | (d0 & Hd0 & ->)].
  - rewrite split_path_decompose by auto.
    cbn. destruct b; reflexivity.
  - rewrite split_path_decompose; auto.
    2:{ right. apply ends_with_snoc. }
    assert (Hdir :
      (if isAbsolute (d0 ++ "/") then "/" else "")
      ++ JS.slice (if isAbsolute (d0 ++ "/") then JS.substring_from (d0 ++ "/") 1
                   else d0 ++ "/") 0
           (Z.of_nat (length (if isAbsolute (d0 ++ "/")
                              then JS.substring_from (d0 ++ "/") 1
                              else d0 ++ "/")) - 1)
      = d0).
    { destruct d0 as [|c d0']; [congruence|].
      change (String c d0' ++ "/") with (String c (d0' ++ "/")).
      rewrite isAbsolute_cons. destruct (Ascii.eqb c slash) eqn:Hc.
      - rewrite substring_from_one, slice_drop_last.
        apply Ascii.eqb_eq in Hc. now subst c.
      - change (String c (d0' ++ "/")) with (String c d0' ++ "/").
        now rewrite slice_drop_last. }
    cbn [JS.bind List.length Nat.eqb negb at_index nth of_capture nullish to_string].
    rewrite Hdir. unfold format.
    cbn [isObject negb prop get_prop String.eqb Ascii.eqb Bool.eqb nullish isString typeof
         truthy_value to_string].
    rewrite (append_assoc d0 "/" b).
    destruct d0 as [|c0 d0']; [congruence|].
    cbn [JS.truthy]. unfold sep. now rewrite append_assoc.
Qed.

Lemma assemble_nonempty (a : bool) (l : list string) :
  l <> [] -> assemble a l false = (if a then "/" else "") ++ JS.join "/" l.
Proof.
  intros H. unfold assemble. destruct l; [congruence|].
  now rewrite append_empty_r.
Qed.

(** A normalized path without trailing slash, other than a single
    component under the root, is a directory prefix followed by its last
    segment. *)
Lemma normalized_decompose (p : string) :
  normalize p = p -> ends_with slash p = false -> in_root_directory p = false ->
  exists d b,
    p = d ++ b /\ segment b
    /\ (d = "" \/ exists d0, d0 <> "" /\ d = d0 ++ "/").
Proof.
  intros Hn Hend Hroot.
  rewrite normalize_assemble, Hend in Hn.
  pose proof (normal_form_segments (normalized_segments_normal_form p)) as Hseg.
  destruct (snoc_or_nil (normalized_segments p)) as [E | (init & b & E)];
    rewrite E in *.
  - destruct (isAbsolute p); simpl in Hn.
    + rewrite <- Hn in Hend. discriminate.
    + exists "", ".". rewrite <- Hn. repeat split; auto. discriminate.
  - apply Forall_app in Hseg. destruct Hseg as [Hinit Hb].
    inversion Hb as [|? ? Hb' _]; subst.
    rewrite assemble_nonempty in Hn by (destruct init; discriminate).
    destruct init as [|x init].
    + simpl in Hn. destruct (isAbsolute p).
      * exfalso. rewrite <- Hn in Hroot. unfold in_root_directory in Hroot.
        change ("/" ++ b) with (String slash b) in Hroot.
        rewrite isAbsolute_cons, substring_from_one in Hroot.
        destruct Hb' as [_ Hb']. rewrite Hb' in Hroot. discriminate.
      * exists "", b. rewrite <- Hn. auto.
    + rewrite join_snoc in Hn by discriminate.
      exists ((if isAbsolute p then "/" else "") ++ JS.join "/" (x :: init) ++ "/"), b.
      split; [|split; [assumption|]].
      * rewrite <- Hn at 1. now rewrite !append_assoc.
      * right. exists ((if isAbsolute p then "/" else "") ++ JS.join "/" (x :: init)).
        split.
        -- pose proof (join_nonempty Hinit) as Hj.
           destruct (isAbsolute p); [discriminate|].
           exact Hj.
        -- now rewrite append_assoc.
Qed.

(** *** Type errors *)

Lemma join_step_string (path s : string) :
  exists path', join_step path (VString s) = Normal path'.
Proof.
  unfold join_step. destruct (JS.truthy s); [|eauto].
  destruct (negb (JS.truthy path)); eauto.
Qed.

Lemma join_step_not_string (path : string) (v : value) :
  isString v = false -> JS.throws (join_step path v).
Proof.
  intros H. destruct v; try discriminate; eexists; reflexivity.
Qed.

Lemma join_loop_throws (args : list value) (path : string) :
  Exists (fun v => isString v = false) args -> JS.throws (join_loop args path).
Proof.
  intros H. revert path. induction H as [v args Hv | v args _ IH]; intros path.
  - destruct (join_step_not_string path v Hv) as [m Hm].
    simpl. rewrite Hm. eexists. reflexivity.
  - destruct (isString v) eqn:Hs.
    + destruct v; try discriminate.
      destruct (join_step_string path s) as [path' Hp].
      cbn [join_loop]. rewrite Hp. apply IH.
    + destruct (join_step_not_string path v Hs) as [m Hm].
      cbn [join_loop]. rewrite Hm. eexists. reflexivity.
Qed.

Lemma resolve_step_not_string (v : value) (rp : string) :
  isString v = false -> JS.throws (resolve_step v rp).
Proof.
  intros H. destruct v; try discriminate; eexists; reflexivity.
Qed.

Lemma resolve_loop_throws (env : environment) (pending : list string)
    (v : value) (rest : list value) (rp : string) :
  Forall (fun s => isAbsolute s = false) pending ->
  isString v = false ->
  JS.throws (resolve_loop env (map VString pending ++ v :: rest) rp false).
Proof.
  intros Hp Hv. revert rp. induction Hp as [|s pending Hs _ IH]; intros rp.
  - destruct (resolve_step_not_string v rp Hv) as [m Hm].
    cbn [map app resolve_loop]. rewrite Hm. eexists. reflexivity.
  - cbn [map app resolve_loop]. rewrite resolve_step_string, Hs.
    destruct (JS.truthy s); cbn [JS.bind fst snd]; apply IH.
Qed.

Lemma rev_around (A : Type) (l1 l2 : list A) (x : A) :
  rev (l1 ++ x :: l2) = (rev l2 ++ x :: rev l1)%list.
Proof.
  rewrite rev_app_distr. simpl. now rewrite <- app_assoc.
Qed.

(** *** Further facts on the splitter, [normalize] and [join] *)

Lemma split_dir_concat (s : string) :
  exists sl,
    s = fst (split_dir s) ++ snd (split_dir s) ++ sl
    /\ all_of is_slash sl = true
    /\ has_char slash (snd (split_dir s)) = false.
Proof.
  induction s as [|a s IH].
  - exists "". repeat split; reflexivity.
  - destruct (all_of is_slash (drop_while not_slash (String a s))) eqn:E.
    + rewrite (split_dir_here _ E). cbn [fst snd].
      exists (drop_while not_slash (String a s)). split; [|split].
      * symmetry. apply (take_drop_while not_slash (String a s)).
      * exact E.
      * apply take_not_slash_free.
    + rewrite (split_dir_later _ _ E). cbn [fst snd].
      destruct IH as (sl & Hs & Hsl & Hb).
      exists sl. split; [|split; assumption].
      change (String a (fst (split_dir s)) ++ snd (split_dir s) ++ sl)
        with (String a (fst (split_dir s) ++ snd (split_dir s) ++ sl)).
      now rewrite <- Hs.
Qed.

Lemma absolute_head (p : string) :
  isAbsolute p = true -> p = "/" ++ JS.substring_from p 1.
Proof.
  destruct p as [|c p]; [discriminate|].
  rewrite isAbsolute_cons, substring_from_one. intros H.
  apply Ascii.eqb_eq in H. now subst c.
Qed.

Lemma join_shift (x s : string) (l : list string) :
  JS.join "/" ((x ++ "/" ++ s) :: l) = x ++ String slash (JS.join "/" (s :: l)).
Proof.
  destruct l as [|y l].
  - reflexivity.
  - rewrite !join_cons2, !append_assoc. reflexivity.
Qed.

Lemma join_loop_strings (args : list string) (path : string) :
  join_loop (map VString args) path
  = Normal (JS.join "/" (filter JS.truthy (path :: args))).
Proof.
  revert path. induction args as [|s args IH]; intros path.
  - simpl. destruct path; reflexivity.
  - cbn [map join_loop]. unfold join_step.
    destruct s as [|c s]; cbn [JS.truthy JS.bind].
    + rewrite IH. reflexivity.
    + destruct path as [|a path]; cbn [JS.truthy negb JS.bind].
      * rewrite IH. reflexivity.
      * rewrite IH. cbn [filter JS.truthy append].
        exact (f_equal Normal
                 (join_shift (String a path) (String c s) (filter JS.truthy args))).
Qed.

Lemma normalize_keeps_absolute (p : string) :
  isAbsolute (normalize p) = isAbsolute p.
Proof.
  rewrite normalize_assemble.
  pose proof (normalized_segments_normal_form p) as Hnf.
  destruct (normalized_segments p) as [|x l].
  - destruct (isAbsolute p), (ends_with slash p); reflexivity.
  - now destruct (@assemble_parts (isAbsolute p) (ends_with slash p) x l Hnf).
Qed.

Lemma join_strings (args : list string) :
  join (map VString args)
  = Normal (normalize (JS.join "/" (filter JS.truthy args))).
Proof. unfold join. rewrite join_loop_strings. reflexivity. Qed.

Lemma joined_pair_relative (from r : string) :
  isAbsolute from = false -> isAbsolute r = false ->
  isAbsolute (JS.join "/" (filter JS.truthy [from; r])) = false.
Proof.
  intros Hf Hr. destruct from as [|a from], r as [|c r];
    cbn [filter JS.truthy]; assumption || reflexivity.
Qed.

(** *** Trailing slashes and the splitter *)

Lemma take_while_snoc_slash (s : string) :
  take_while not_slash (s ++ "/") = take_while not_slash s.
Proof.
  induction s as [|c s IH]; [reflexivity|].
  simpl. destruct (not_slash c); [now rewrite IH | reflexivity].
Qed.

Lemma drop_while_snoc_slash (s : string) :
  all_of is_slash (drop_while not_slash (s ++ "/"))
  = all_of is_slash (drop_while not_slash s).
Proof.
  induction s as [|c s IH]; [reflexivity|].
  simpl. destruct (not_slash c); [exact IH|].
  change (String c (s ++ "/")) with (String c s ++ "/").
  rewrite all_of_append. simpl. now rewrite andb_true_r.
Qed.

Lemma split_dir_snoc_slash (s : string) :
  split_dir (s ++ "/") = split_dir s.
Proof.
  induction s as [|c s IH]; [reflexivity|].
  change (String c s ++ "/") with (String c (s ++ "/")).
  destruct (all_of is_slash (drop_while not_slash (String c s))) eqn:E.
  - rewrite (split_dir_here _ E).
    change (String c (s ++ "/")) with (String c s ++ "/").
    rewrite split_dir_here by (now rewrite drop_while_snoc_slash).
    now rewrite take_while_snoc_slash.
  - rewrite (split_dir_later _ _ E).
    rewrite split_dir_later, IH; [reflexivity|].
    change (String c (s ++ "/")) with (String c s ++ "/").
    now rewrite drop_while_snoc_slash.
Qed.

Lemma split_path_snoc_slash (p : string) :
  p <> "" -> split_path (p ++ "/") = split_path p.
Proof.
  intros Hp. unfold split_path. rewrite isAbsolute_append by assumption.
  destruct p as [|c p]; [congruence|].
  change (String c p ++ "/") with (String c (p ++ "/")).
  rewrite !substring_from_one.
  change (String c (p ++ "/")) with (String c p ++ "/").
  destruct (isAbsolute (String c p)); now rewrite split_dir_snoc_slash.
Qed.

(** *** [dirname] *)

Lemma substr_drop_last (x : string) :
  JS.substr (x ++ "/") 0 (Some (Z.of_nat (length (x ++ "/")) - 1)%Z) = x.
Proof.
  unfold JS.substr. rewrite append_length. simpl length.
  change (0 <? 0)%Z with false. cbv iota.
  replace (Z.min 0 (Z.of_nat (length x + 1))) with 0%Z by lia.
  replace (Z.min (Z.max (Z.of_nat (length x + 1) - 1) 0)
             (Z.of_nat (length x + 1) - 0))
    with (Z.of_nat (length x)) by lia.
  rewrite Nat2Z.id. apply substring_zero_append.
Qed.

Lemma dirname_top (b sl : string) :
  segment b -> all_of is_slash sl = true -> dirname (b ++ sl) = Normal ".".
Proof.
  intros Hb Hsl. unfold dirname. rewrite posixSplitPath_spec.
  pose proof (@split_path_decompose "" b sl (or_introl eq_refl) Hb Hsl) as E.
  change ("" ++ b ++ sl) with (b ++ sl) in E. rewrite E. reflexivity.
Qed.

Lemma dirname_of_dir (d0 b sl : string) :
  d0 <> "" -> segment b -> all_of is_slash sl = true ->
  dirname (d0 ++ "/" ++ b ++ sl) = Normal d0.
Proof.
  intros Hd Hb Hsl. unfold dirname. rewrite posixSplitPath_spec.
  rewrite <- (append_assoc d0 "/" (b ++ sl)).
  rewrite split_path_decompose; auto.
  2:{ right. apply ends_with_snoc. }
  cbn [JS.bind at_index nth of_capture].
  destruct d0 as [|c d0']; [congruence|].
  change (String c d0' ++ "/") with (String c (d0' ++ "/")).
  rewrite isAbsolute_cons. destruct (Ascii.eqb c slash) eqn:Hc.
  - apply Ascii.eqb_eq in Hc. subst c. rewrite substring_from_one.
    cbn [truthy_value JS.truthy negb andb].
    replace (JS.truthy (d0' ++ "/")) with true by (destruct d0'; reflexivity).
    cbn [to_string]. now rewrite substr_drop_last.
  - cbn [truthy_value JS.truthy negb andb to_string].
    change (String c (d0' ++ "/")) with (String c d0' ++ "/").
    now rewrite substr_drop_last.
Qed.

Lemma split_dir_slashes (s : string) :
  all_of is_slash s = true -> split_dir s = ("", "").
Proof.
  intros Hs.
  destruct (component_then_slashes "" s eq_refl Hs) as [Ht Hdrop].
  change ("" ++ s) with s in Ht, Hdrop.
  rewrite split_dir_here by (now rewrite Hdrop). now rewrite Ht.
Qed.

Lemma dirname_slashes (p : string) :
  p <> "" -> all_of is_slash p = true -> dirname p = Normal "/".
Proof.
  intros Hp Hs. unfold dirname. rewrite posixSplitPath_spec. unfold split_path.
  destruct p as [|c p]; [congruence|].
  simpl in Hs. apply andb_true_iff in Hs. destruct Hs as [Hc Hs].
  rewrite isAbsolute_cons. unfold is_slash in Hc. rewrite Hc.
  rewrite substring_from_one, (split_dir_slashes _ Hs). reflexivity.
Qed.

Lemma dirname_root_child (b sl : string) :
  segment b -> all_of is_slash sl = true ->
  dirname ("/" ++ b ++ sl) = Normal "/".
Proof.
  intros Hb Hsl. unfold dirname. rewrite posixSplitPath_spec.
  rewrite (@split_path_decompose "/" b sl (or_intror eq_refl) Hb Hsl).
  reflexivity.
Qed.

(** *** [basename] with and without a suffix *)

Lemma substring_skip (a b : string) (n : nat) :
  substring (length a) n (a ++ b) = substring 0 n b.
Proof. induction a as [|x a IH]; simpl; [reflexivity | exact IH]. Qed.

Lemma substring_split (s : string) (n : nat) :
  n <= length s ->
  s = substring 0 n s ++ substring n (length s - n) s.
Proof.
  revert s. induction n as [|n IH]; intros s Hn.
  - rewrite Nat.sub_0_r, substring_zero_all. destruct s; reflexivity.
  - destruct s as [|c s]; [simpl in Hn; lia|].
    simpl in Hn. simpl. f_equal. apply IH. lia.
Qed.

Lemma substr_from_end (f : string) (k : nat) :
  exists pre, f = pre ++ JS.substr f (-1 * Z.of_nat k) None.
Proof.
  unfold JS.substr.
  set (size := Z.of_nat (length f)).
  set (from := if (-1 * Z.of_nat k <? 0)%Z
               then Z.max (size + -1 * Z.of_nat k) 0
               else Z.min (-1 * Z.of_nat k) size).
  assert (Hfrom : (0 <= from <= size)%Z).
  { unfold from, size. destruct (-1 * Z.of_nat k <? 0)%Z eqn:E; lia. }
  exists (substring 0 (Z.to_nat from) f).
  replace (Z.to_nat (size - from)) with (length f - Z.to_nat from)
    by (unfold size in *; lia).
  apply substring_split. unfold size in *. lia.
Qed.

Lemma substr_suffix_of_append (n ext : string) :
  ext <> "" ->
  JS.substr (n ++ ext) (-1 * Z.of_nat (length ext)) None = ext.
Proof.
  intros Hne. unfold JS.substr. rewrite append_length.
  destruct (-1 * Z.of_nat (length ext) <? 0)%Z eqn:E.
  - replace (Z.max (Z.of_nat (length n + length ext) + -1 * Z.of_nat (length ext)) 0)
      with (Z.of_nat (length n)) by lia.
    replace (Z.of_nat (length n + length ext) - Z.of_nat (length n))%Z
      with (Z.of_nat (length ext)) by lia.
    rewrite !Nat2Z.id, substring_skip. apply substring_zero_all.
  - apply Z.ltb_ge in E. assert (Hext : length ext = 0) by lia.
    destruct ext; [congruence | discriminate].
Qed.

Lemma substr_prefix_of_append (n ext : string) :
  JS.substr (n ++ ext) 0
    (Some (Z.of_nat (length (n ++ ext)) - Z.of_nat (length ext))%Z) = n.
Proof.
  unfold JS.substr. rewrite append_length.
  change (0 <? 0)%Z with false. cbv iota.
  replace (Z.min 0 (Z.of_nat (length n + length ext))) with 0%Z by lia.
  replace (Z.min (Z.max (Z.of_nat (length n + length ext) - Z.of_nat (length ext)) 0)
             (Z.of_nat (length n + length ext) - 0))
    with (Z.of_nat (length n)) by lia.
  rewrite Nat2Z.id. apply substring_zero_append.
Qed.

Lemma basename_plain (p : string) :
  basename p None = Normal (VString (final_component p)).
Proof.
  unfold basename. rewrite posixSplitPath_spec.
  destruct (split_path_parts p) as (root & d & ->). reflexivity.
Qed.

Lemma basename_with (p ext : string) :
  ext <> "" ->
  basename p (Some ext)
  = Normal (VString
      (if JS.substr (final_component p) (-1 * Z.of_nat (length ext)) None =? ext
       then JS.substr (final_component p) 0
              (Some (Z.of_nat (length (final_component p))
                     - Z.of_nat (length ext))%Z)
       else final_component p)).
Proof.
  intros Hext. unfold basename. rewrite posixSplitPath_spec.
  destruct (split_path_parts p) as (root & d & ->).
  cbn [JS.bind at_index nth receiver].
  destruct ext as [|c ext]; [congruence|]. cbn [JS.truthy JS.bind].
  destruct (_ =? _); reflexivity.
Qed.

(** *** The fields of [parse] *)

Lemma dot_suffix_is_suffix (s : string) : exists n, s = n ++ dot_suffix s.
Proof.
  induction s as [|c s IH].
  - exists "". reflexivity.
  - cbn [dot_suffix]. destruct (has_char dot s).
    + destruct IH as [n Hn]. exists (String c n). simpl. now rewrite <- Hn.
    + destruct (Ascii.eqb c dot).
      * exists "". reflexivity.
      * exists (String c s). now rewrite append_empty_r.
Qed.

Lemma extension_is_suffix (b : string) : exists n, b = n ++ extension b.
Proof.
  destruct b as [|c b]; [exists ""; reflexivity|].
  unfold extension. destruct (String c b =? "..").
  - exists (String c b). now rewrite append_empty_r.
  - destruct (dot_suffix_is_suffix b) as [n Hn].
    exists (String c n). simpl. now rewrite <- Hn.
Qed.

Lemma slice_prefix_of_append (n e : string) :
  JS.slice (n ++ e) 0 (Z.of_nat (length (n ++ e)) - Z.of_nat (length e)) = n.
Proof.
  unfold JS.slice. rewrite append_length.
  change (0 <? 0)%Z with false. cbv iota.
  destruct (Z.of_nat (length n + length e) - Z.of_nat (length e) <? 0)%Z eqn:E.
  - apply Z.ltb_lt in E. lia.
  - replace (Z.min 0 (Z.of_nat (length n + length e))) with 0%Z by lia.
    replace (Z.max (Z.min (Z.of_nat (length n + length e) - Z.of_nat (length e))
                      (Z.of_nat (length n + length e)) - 0) 0)
      with (Z.of_nat (length n)) by lia.
    rewrite Nat2Z.id. apply substring_zero_append.
Qed.

Lemma slice_substr_init (c : ascii) (s : string) :
  JS.slice (String c s) 0 (Z.of_nat (length (String c s)) - 1)
  = JS.substr (String c s) 0 (Some (Z.of_nat (length (String c s)) - 1)%Z)
  /\ (s <> "" ->
      JS.slice (String c s) 0 (Z.of_nat (length (String c s)) - 1) <> "").
Proof.
  unfold JS.slice, JS.substr. simpl length.
  change (0 <? 0)%Z with false. cbv iota.
  destruct (Z.of_nat (S (length s)) - 1 <? 0)%Z eqn:E.
  { apply Z.ltb_lt in E. lia. }
  replace (Z.min 0 (Z.of_nat (S (length s)))) with 0%Z by lia.
  replace (Z.max (Z.min (Z.of_nat (S (length s)) - 1) (Z.of_nat (S (length s))) - 0) 0)
    with (Z.of_nat (length s)) by lia.
  replace (Z.min (Z.max (Z.of_nat (S (length s)) - 1) 0) (Z.of_nat (S (length s)) - 0))
    with (Z.of_nat (length s)) by lia.
  rewrite Nat2Z.id. split; [reflexivity|].
  intros Hs. destruct s; [congruence | discriminate].
Qed.

Lemma split_dir_dir_shape (s : string) :
  fst (split_dir s) = "" \/ ends_with slash (fst (split_dir s)) = true.
Proof.
  induction s as [|c s IH]; [now left|].
  destruct (all_of is_slash (drop_while not_slash (String c s))) eqn:E.
  - rewrite (split_dir_here _ E). now left.
  - rewrite (split_dir_later _ _ E). cbn [fst]. right.
    destruct IH as [IH | IH].
    + rewrite IH.
      (* the split is right after [c], so [c] is a slash *)
      destruct (Ascii.eqb c slash) eqn:Hc; [simpl; exact Hc|].
      exfalso.
      destruct (all_of is_slash (drop_while not_slash s)) eqn:Es.
      * simpl in E. unfold not_slash in E at 1. rewrite Hc in E. simpl in E.
        congruence.
      * destruct s as [|a s]; [discriminate|].
        rewrite (split_dir_later _ _ Es) in IH. discriminate.
    + destruct (fst (split_dir s)); [discriminate | exact IH].
Qed.

Lemma split_dir_dir_head (c : ascii) (s : string) :
  fst (split_dir (String c s)) = ""
  \/ exists d, fst (split_dir (String c s)) = String c d.
Proof.
  destruct (all_of is_slash (drop_while not_slash (String c s))) eqn:E.
  - rewrite (split_dir_here _ E). now left.
  - rewrite (split_dir_later _ _ E). cbn [fst]. right. eauto.
Qed.

Lemma parse_unfold (p : string) :
  parse (VString p) =
    let root := if isAbsolute p then "/" else "" in
    let rest := if isAbsolute p then JS.substring_from p 1 else p in
    let d := fst (split_dir rest) in
    let b := snd (split_dir rest) in
    Normal (VObject
      [ ("root", VString root);
        ("dir", VString (root ++ JS.slice d 0 (Z.of_nat (length d) - 1)));
        ("base", VString b);
        ("ext", VString (extension b));
        ("name", VString (JS.slice b 0
                   (Z.of_nat (length b) - Z.of_nat (length (extension b))))) ]).
Proof.
  unfold parse. rewrite posixSplitPath_spec. unfold split_path.
  destruct (split_dir _) as [d b]. reflexivity.
Qed.

Lemma dirname_unfold (p : string) :
  dirname p =
    let root := if isAbsolute p then "/" else "" in
    let rest := if isAbsolute p then JS.substring_from p 1 else p in
    let d := fst (split_dir rest) in
    Normal (if negb (JS.truthy root) && negb (JS.truthy d) then "."
            else root ++ (if JS.truthy d
                          then JS.substr d 0 (Some (Z.of_nat (length d) - 1)%Z)
                          else d)).
Proof.
  unfold dirname. rewrite posixSplitPath_spec. unfold split_path.
  destruct (split_dir _) as [d b].
  cbn [JS.bind at_index nth of_capture truthy_value fst to_string].
  destruct (negb (JS.truthy _) && negb (JS.truthy d)); [reflexivity|].
  destruct (JS.truthy d); reflexivity.
Qed.

(** [dirname] is the [dir] field of [parse], with "." for an empty one. *)
Lemma dirname_parse_dir (p : string) :
  let root := if isAbsolute p then "/" else "" in
  let rest := if isAbsolute p then JS.substring_from p 1 else p in
  let d := fst (split_dir rest) in
  let dir := root ++ JS.slice d 0 (Z.of_nat (length d) - 1) in
  dirname p = Normal (if dir =? "" then "." else dir).
Proof.
  cbv zeta. rewrite dirname_unfold. cbv zeta.
  destruct (isAbsolute p) eqn:Ha.
  - cbn [JS.truthy negb andb].
    destruct (fst (split_dir (JS.substring_from p 1))) as [|c d] eqn:Ed.
    + reflexivity.
    + cbn [JS.truthy]. destruct (slice_substr_init c d) as [-> _]. reflexivity.
  - cbn [JS.truthy negb andb append].
    destruct p as [|a p]; [reflexivity|].
    destruct (split_dir_dir_head a p) as [E | [d E]]; rewrite E.
    + reflexivity.
    + cbn [JS.truthy negb]. destruct (slice_substr_init a d) as [Hs Hne].
      rewrite <- Hs.
      assert (Hd : d <> "").
      { intros ->. pose proof (split_dir_dir_shape (String a p)) as [H | H];
          rewrite E in H; [discriminate|].
        simpl in H. rewrite isAbsolute_cons in Ha. congruence. }
      apply Hne, String.eqb_neq in Hd. now rewrite Hd.
Qed.

Lemma parse_via_split (p q : string) :
  split_path p = split_path q -> parse (VString p) = parse (VString q).
Proof.
  intros H. unfold parse. rewrite !posixSplitPath_spec, H.
  destruct (split_path_parts q) as (root & d & ->). reflexivity.
Qed.

Lemma ends_with_split (c : ascii) (s : string) :
  ends_with c s = true -> exists s0, s = s0 ++ String c "".
Proof.
  induction s as [|a s IH]; [discriminate|].
  intros H. destruct s as [|b s].
  - simpl in H. apply Ascii.eqb_eq in H. subst a. exists "". reflexivity.
  - destruct (IH H) as [s0 Hs0]. exists (String a s0). simpl. now rewrite <- Hs0.
Qed.

Lemma format_parse_root_child (b : string) :
  segment b ->
  (o <- parse (VString ("/" ++ b)) ;; format o) = Normal ("//" ++ b).
Proof.
  intros Hb. unfold parse. rewrite posixSplitPath_spec.
  rewrite <- (append_empty_r b) at 1.
  rewrite (@split_path_decompose "/" b "" (or_intror eq_refl) Hb eq_refl).
  reflexivity.
Qed.

Lemma format_parse_general (d b sl : string) :
  segment b -> all_of is_slash sl = true ->
  d = "" \/ ends_with slash d = true ->
  (o <- parse (VString (d ++ b ++ sl)) ;; format o)
  = Normal (if d =? "/" then "//" ++ b else d ++ b).
Proof.
  intros Hb Hsl Hd.
  assert (Hsame : parse (VString (d ++ b ++ sl)) = parse (VString (d ++ b))).
  { apply parse_via_split. rewrite <- (append_empty_r b) at 2.
    now rewrite !split_path_decompose. }
  rewrite Hsame.
  destruct (String.eqb_spec d "/") as [-> | Hne].
  - now apply format_parse_root_child.
  - apply format_parse_decomposed; [assumption|].
    destruct Hd as [Hd | Hd]; [now left | right].
    destruct (ends_with_split _ _ Hd) as [d0 Hd0].
    exists d0. split; [|exact Hd0].
    intros ->. now apply Hne.
Qed.

Lemma slice_name (b e n : string) :
  b = n ++ e ->
  JS.slice b 0 (Z.of_nat (length b) - Z.of_nat (length e)) = n.
Proof. intros ->. apply slice_prefix_of_append. Qed.

(** *** Invariants of [normalizeArray] on arbitrary arrays *)

Lemma fold_plain (allow : bool) (names acc : list string) :
  Forall plain_name names ->
  fold_left (normalizeArray_step allow) names acc = (acc ++ names)%list.
Proof.
  intros H. revert acc. induction H as [|p names (H1 & H2 & H3) _ IH];
    intros acc; simpl.
  - now rewrite app_nil_r.
  - rewrite step_keep by assumption. rewrite IH, <- app_assoc. reflexivity.
Qed.

Lemma normalizeArray_shape (parts : list string) (allow : bool) :
  exists k names,
    normalizeArray parts allow = (repeat ".." k ++ names)%list
    /\ Forall plain_name names
    /\ (allow = false -> k = 0).
Proof.
  induction parts as [|p parts IH] using rev_ind.
  - exists 0, []. repeat split; auto.
  - destruct IH as (k & names & E & Hnames & Hk).
    rewrite normalizeArray_snoc, E.
    destruct (string_dec p "") as [-> | Hne].
    { rewrite step_drop by now left. exists k, names. auto. }
    destruct (string_dec p ".") as [-> | Hnd].
    { rewrite step_drop by now right. exists k, names. auto. }
    destruct (string_dec p "..") as [-> | Hnp].
    2:{ rewrite step_keep by assumption. rewrite <- app_assoc.
        exists k, (names ++ [p])%list. repeat split; auto.
        apply Forall_app. split; [assumption|].
        repeat constructor; assumption. }
    destruct (snoc_or_nil names) as [-> | (names' & x & ->)].
    + rewrite app_nil_r, step_parent_top by apply parents_on_top.
      destruct allow.
      * exists (S k), []. rewrite app_nil_r. repeat split; auto.
        -- symmetry. apply repeat_snoc.
        -- discriminate.
      * exists k, []. rewrite app_nil_r. auto.
    + apply Forall_app in Hnames. destruct Hnames as [Hnames' Hx].
      inversion Hx as [|? ? (_ & _ & Hx') _]; subst.
      rewrite app_assoc, step_pop by assumption.
      exists k, names'. auto.
Qed.

Lemma normalizeArray_of_shape (allow : bool) (k : nat) (names : list string) :
  Forall plain_name names -> (allow = false -> k = 0) ->
  normalizeArray (repeat ".." k ++ names) allow = (repeat ".." k ++ names)%list.
Proof.
  intros Hnames Hk. unfold normalizeArray. rewrite fold_left_app.
  destruct allow.
  - change (@nil string) with (repeat ".." 0) at 1.
    rewrite fold_parents, fold_plain by assumption. reflexivity.
  - rewrite (Hk eq_refl). simpl. now apply fold_plain.
Qed.

Lemma in_removelast (A : Type) (l : list A) (x : A) :
  In x (removelast l) -> In x l.
Proof.
  destruct (snoc_or_nil l) as [-> | (l' & a & ->)]; [auto|].
  rewrite removelast_last. intros H. apply in_or_app. now left.
Qed.

Lemma step_elements (allow : bool) (res : list string) (p x : string) :
  In x (normalizeArray_step allow res p) -> In x res \/ x = p.
Proof.
  unfold normalizeArray_step, JS.pop, JS.push.
  destruct (negb (JS.truthy p) || (p =? ".")); [now left|].
  destruct (String.eqb_spec p "..") as [-> | _].
  - destruct (negb (Nat.eqb (List.length res) 0) && negb (last res "" =? "..")).
    + intros H. left. now apply in_removelast.
    + destruct allow; [|now left].
      intros H. apply in_app_or in H. destruct H as [H | [H | []]]; auto.
  - intros H. apply in_app_or in H. destruct H as [H | [H | []]]; auto.
Qed.

Lemma step_length (allow : bool) (res : list string) (p : string) :
  List.length (normalizeArray_step allow res p) <= S (List.length res).
Proof.
  unfold normalizeArray_step, JS.pop, JS.push.
  destruct (negb (JS.truthy p) || (p =? ".")); [lia|].
  destruct (p =? "..").
  - destruct (negb (Nat.eqb (List.length res) 0) && negb (last res "" =? "..")).
    + destruct (snoc_or_nil res) as [-> | (l' & a & ->)]; [simpl; lia|].
      rewrite removelast_last, length_app. simpl. lia.
    + destruct allow; [|lia]. rewrite length_app. simpl. lia.
  - rewrite length_app. simpl. lia.
Qed.

Lemma normalizeArray_elements (parts : list string) (allow : bool) :
  incl (normalizeArray parts allow) parts.
Proof.
  induction parts as [|p parts IH] using rev_ind; [intros x []|].
  rewrite normalizeArray_snoc. intros x Hx.
  apply step_elements in Hx. apply in_or_app.
  destruct Hx as [Hx | ->]; [left; now apply IH | right; now left].
Qed.

Lemma normalizeArray_length (parts : list string) (allow : bool) :
  List.length (normalizeArray parts allow) <= List.length parts.
Proof.
  induction parts as [|p parts IH] using rev_ind; [simpl; lia|].
  rewrite normalizeArray_snoc, length_app. simpl.
  pose proof (step_length allow (normalizeArray parts allow) p). lia.
Qed.

(** *** More on [resolve] *)

Lemma resolve_step_absolute (a rp : string) :
  isAbsolute a = true ->
  resolve_step (VString a) rp = Normal (a ++ "/" ++ rp, true).
Proof.
  intros Ha. rewrite resolve_step_string, Ha.
  now rewrite (absolute_truthy _ Ha).
Qed.

(** What stands to the left of an absolute argument is never visited. *)
Lemma resolve_loop_stops (env : environment) (pending rest : list value)
    (a rp : string) (b : bool) :
  isAbsolute a = true ->
  resolve_loop env (pending ++ VString a :: rest) rp b
  = resolve_loop env (pending ++ [VString a]) rp b.
Proof.
  intros Ha. revert rp b. induction pending as [|v pending IH]; intros rp b.
  - destruct b; [reflexivity|].
    cbn [app resolve_loop]. rewrite resolve_step_absolute by assumption.
    cbn [JS.bind fst snd]. now rewrite resolve_loop_done.
  - destruct b; [reflexivity|].
    cbn [app resolve_loop].
    destruct (resolve_step v rp) as [[rp' b'] | e]; [|reflexivity].
    cbn [JS.bind fst snd]. apply IH.
Qed.

(** An explicit absolute working directory in front changes nothing. *)
Lemma resolve_loop_cwd (env : environment) (pending : list value)
    (rp : string) (b : bool) :
  isAbsolute (getCwd env) = true ->
  resolve_loop env (pending ++ [VString (getCwd env)]) rp b
  = resolve_loop env pending rp b.
Proof.
  intros Hcwd. revert rp b. induction pending as [|v pending IH]; intros rp b.
  - destruct b; [reflexivity|].
    cbn [app resolve_loop]. rewrite resolve_step_cwd by assumption.
    reflexivity.
  - destruct b; [reflexivity|].
    cbn [app resolve_loop].
    destruct (resolve_step v rp) as [[rp' b'] | e]; [|reflexivity].
    cbn [JS.bind fst snd]. apply IH.
Qed.

(** Empty strings among the arguments are skipped. *)
Lemma resolve_loop_skips_empty (env : environment) (pending : list string)
    (rp : string) (b : bool) :
  resolve_loop env (map VString (filter JS.truthy pending)) rp b
  = resolve_loop env (map VString pending) rp b.
Proof.
  revert rp b. induction pending as [|s pending IH]; intros rp b; [reflexivity|].
  destruct b; [now rewrite !resolve_loop_done|].
  cbn [filter]. destruct (JS.truthy s) eqn:Hs.
  - cbn [map resolve_loop]. rewrite resolve_step_string, Hs.
    cbn [JS.bind fst snd]. apply IH.
  - rewrite IH. cbn [map resolve_loop]. rewrite resolve_step_string, Hs.
    reflexivity.
Qed.

(** The accumulated path of a longer call: what is already accumulated
    stays at the end. *)
Lemma resolve_loop_accumulates (env : environment) (pending : list string)
    (rp : string) :
  resolve_loop env (map VString pending) rp false
  = st <- resolve_loop env (map VString pending) "" false ;;
    Normal (fst st ++ rp, snd st).
Proof.
  revert rp. induction pending as [|s pending IH]; intros rp.
  - cbn [map resolve_loop]. rewrite !resolve_step_string.
    destruct (JS.truthy (getCwd env)); cbn [JS.bind fst snd].
    + now rewrite !append_assoc.
    + reflexivity.
  - cbn [map resolve_loop]. rewrite !resolve_step_string.
    destruct (JS.truthy s); cbn [JS.bind fst snd].
    + destruct (isAbsolute s).
      * rewrite !resolve_loop_done. cbn [JS.bind fst snd].
        now rewrite !append_assoc.
      * rewrite (IH (s ++ "/" ++ rp)), (IH (s ++ "/" ++ "")).
        destruct (resolve_loop env (map VString pending) "" false)
          as [[Y b] | e]; [|reflexivity].
        cbn [JS.bind fst snd]. now rewrite !append_assoc.
    + apply IH.
Qed.

(** [resolve] on strings: the normalized segments after a "/". *)
Lemma resolve_strings (env : environment) (args : list string) :
  isAbsolute (getCwd env) = true ->
  exists T,
    normal_form false T
    /\ resolve env (map VString args) = Normal ("/" ++ JS.join "/" T).
Proof.
  intros Hcwd. unfold resolve. rewrite <- map_rev.
  destruct (resolve_loop_strings env (rev args) "") as (X & b & -> & Hb).
  rewrite (Hb Hcwd). cbn [JS.bind fst snd negb].
  exists (normalizeArray (JS.split slash X) false). split; [|reflexivity].
  apply normalizeArray_normal_form, split_pieces_slash_free.
Qed.

Lemma normalized_segments_assembled (a t : bool) (l : list string) :
  normal_form (negb a) l ->
  normalized_segments (assemble a l t) = l.
Proof.
  intros Hnf. destruct l as [|x l].
  - destruct a, t; reflexivity.
  - now destruct (@assemble_parts a t x l Hnf) as (_ & Hs & _).
Qed.

Lemma resolve_of_resolved (env : environment) (T : list string) :
  isAbsolute (getCwd env) = true ->
  normal_form false T ->
  resolve env [VString ("/" ++ JS.join "/" T)] = Normal ("/" ++ JS.join "/" T).
Proof.
  intros Hcwd Hnf.
  destruct (resolve_single env ("/" ++ JS.join "/" T) Hcwd) as (T' & _ & Hr & HT').
  rewrite Hr. specialize (HT' eq_refl).
  rewrite <- assemble_plain in HT'.
  rewrite (@normalized_segments_assembled true false T Hnf) in HT'.
  now subst T'.
Qed.

Lemma resolve_loop_cons (env : environment) (v : value) (rest : list value)
    (rp : string) :
  resolve_loop env (v :: rest) rp false
  = st <- resolve_step v rp ;; resolve_loop env rest (fst st) (snd st).
Proof. reflexivity. Qed.

Lemma resolve_loop_single (env : environment) (from : string) :
  isAbsolute (getCwd env) = true ->
  exists X0, resolve_loop env [VString from] "" false = Normal (X0 ++ "/", true).
Proof.
  intros Hcwd. cbn [resolve_loop]. rewrite resolve_step_string.
  destruct (JS.truthy from); cbn [JS.bind fst snd].
  - destruct (isAbsolute from).
    + exists from. reflexivity.
    + rewrite resolve_step_cwd by assumption.
      exists (getCwd env ++ "/" ++ from).
      now rewrite !append_assoc.
  - rewrite resolve_step_cwd by assumption.
    exists (getCwd env). reflexivity.
Qed.

(** Resolving [from] and then a relative path [r]: the segments of [r]
    are run through the normalizer on top of the segments of [from]. *)
Lemma resolve_pair (env : environment) (from : string) :
  isAbsolute (getCwd env) = true ->
  exists F,
    normal_form false F
    /\ resolve env [VString from] = Normal ("/" ++ JS.join "/" F)
    /\ forall r,
         isAbsolute r = false ->
         resolve env [VString from; VString r]
         = Normal ("/" ++ JS.join "/"
                     (if JS.truthy r
                      then fold_left (normalizeArray_step false)
                             (JS.split slash r) F
                      else F)).
Proof.
  intros Hcwd.
  destruct (resolve_loop_single env from Hcwd) as (X0 & HX).
  exists (normalizeArray (JS.split slash X0) false).
  split; [apply normalizeArray_normal_form, split_pieces_slash_free|].
  assert (Hone : resolve env [VString from]
                 = Normal ("/" ++ JS.join "/" (normalizeArray (JS.split slash X0) false))).
  { unfold resolve. cbn [rev app]. rewrite HX. cbn [JS.bind fst snd negb].
    rewrite split_append_slash. change (JS.split slash "") with [""].
    now rewrite normalizeArray_drop_last. }
  split; [exact Hone|].
  intros r Hr. destruct (JS.truthy r) eqn:Ht.
  - unfold resolve. cbn [rev app].
    rewrite resolve_loop_cons, resolve_step_string, Ht, Hr.
    cbn [JS.bind fst snd].
    change [VString from] with (map VString [from]).
    rewrite resolve_loop_accumulates. cbn [map].
    rewrite HX. cbn [JS.bind fst snd negb].
    rewrite append_assoc.
    change ("/" ++ r ++ "/" ++ "") with (String slash (r ++ String slash "")).
    rewrite !split_append_slash. change (JS.split slash "") with [""].
    unfold normalizeArray. rewrite !fold_left_app. reflexivity.
  - rewrite <- Hone. unfold resolve. cbn [rev app].
    rewrite resolve_loop_cons, resolve_step_string, Ht. reflexivity.
Qed.

(** *** [normalize] of a path continued by another *)

Lemma normalize_nonempty (p : string) : normalize p <> "".
Proof.
  rewrite normalize_assemble. unfold assemble.
  pose proof (normal_form_segments (normalized_segments_normal_form p)) as Hseg.
  destruct (normalized_segments p) as [|x l].
  - destruct (isAbsolute p), (ends_with slash p); discriminate.
  - pose proof (join_nonempty Hseg) as Hj.
    destruct (isAbsolute p); [discriminate|].
    destruct (JS.join "/" (x :: l)); [congruence | discriminate].
Qed.

Lemma normalized_segments_normalize (p : string) :
  normalized_segments (normalize p) = normalized_segments p.
Proof.
  rewrite normalize_assemble.
  apply normalized_segments_assembled, normalized_segments_normal_form.
Qed.

Lemma normalize_continued (y c : string) :
  y <> "" ->
  normalize (y ++ String slash c)
  = assemble (isAbsolute y)
      (fold_left (normalizeArray_step (negb (isAbsolute y)))
         (JS.split slash c) (normalized_segments y))
      (ends_with slash (String slash c)).
Proof.
  intros Hy. rewrite normalize_assemble.
  rewrite isAbsolute_append by assumption.
  rewrite ends_with_append by discriminate.
  f_equal. unfold normalized_segments.
  rewrite isAbsolute_append by assumption.
  rewrite split_append_slash. unfold normalizeArray.
  now rewrite fold_left_app.
Qed.

Lemma normalize_of_normalized_prefix (x c : string) :
  x <> "" ->
  normalize (normalize x ++ String slash c) = normalize (x ++ String slash c).
Proof.
  intros Hx.
  rewrite !normalize_continued by (assumption || apply normalize_nonempty).
  now rewrite normalize_keeps_absolute, normalized_segments_normalize.
Qed.

Lemma normalize_twice (p : string) : normalize (normalize p) = normalize p.
Proof.
  rewrite (normalize_assemble p).
  apply normalize_assembled, normalized_segments_normal_form.
Qed.

Lemma resolve_absolute_single (env : environment) (p : string) :
  isAbsolute p = true ->
  resolve env [VString p]
  = Normal ("/" ++ JS.join "/" (normalized_segments p)).
Proof.
  intros Ha. unfold resolve. cbn [rev app].
  rewrite resolve_loop_cons, resolve_step_absolute by assumption.
  cbn [JS.bind fst snd]. rewrite resolve_loop_done.
  cbn [JS.bind fst snd negb].
  change ("/" ++ "") with (String slash "").
  rewrite split_append_slash. change (JS.split slash "") with [""].
  rewrite normalizeArray_drop_last. unfold normalized_segments.
  now rewrite Ha.
Qed.

(** ** The claims *)

(** C1 as stated fails: for a relative path that reduces to no segment
    and ends in "/", the code returns "./" where the stated rule returns
    ".". *)
Lemma C1_counterexample :
  normalize "./" = "./" /\ normalize_spec "./" = "." /\
  normalize "./" <> normalize_spec "./".
Proof. repeat split; try reflexivity. discriminate. Qed.

(** C1, amended.  [normalize p] is the stated composition (split on "/",
    segment normalizer with [allowAboveRoot = !isAbsolute(p)], rejoin with
    "/", leading "/" for an absolute [p], "." for an empty result of a
    relative [p], trailing "/" after a non-empty result when [p] ended in
    "/"), except that the "." of a relative [p] also gets the trailing
    slash back: there the result is "./".  In particular
    normalize("a/../../b") = "../b" and normalize("/a/b/../../c") = "/c". *)
Theorem C1_normalize_composition :
  (forall p : string,
     normalize p =
       if negb (isAbsolute p)
          && (JS.join "/" (normalized_segments p) =? "")
          && ends_with slash p
       then "./"
       else normalize_spec p)
  /\ normalize "a/../../b" = "../b"
  /\ normalize "/a/b/../../c" = "/c".
Proof.
  split; [|split; reflexivity].
  intros p. unfold normalize, normalize_spec, normalized_segments.
  rewrite substr_last_is_slash.
  set (result := JS.join "/" _).
  rewrite !truthy_eqb_empty, !negb_involutive.
  destruct (isAbsolute p), (result =? "") eqn:Hres, (ends_with slash p);
    simpl; rewrite ?Hres; simpl; rewrite ?append_empty_r; try reflexivity.
  all: apply String.eqb_eq in Hres; rewrite Hres; reflexivity.
Qed.

(** C2. The segment normalizer is a single left-to-right pass: reading
    nothing leaves the accumulator empty; an empty segment or "." is
    dropped; ".." pops the accumulator when it is non-empty and does not
    end in "..", and otherwise is pushed exactly when [allowAboveRoot] is
    true and dropped when it is false; any other segment is appended
    verbatim.  [normalizeArray] computes exactly the accumulator of that
    pass. *)
Theorem C2_normalizeArray_single_pass :
  forall (parts : list string) (allowAboveRoot : bool) (acc : list string),
    single_pass allowAboveRoot parts acc
    <-> normalizeArray parts allowAboveRoot = acc.
Proof.
  intros parts allow acc. split.
  - induction 1 as [ | parts acc p _ IH Hp | parts acc x _ IH Hx
                     | parts acc _ IH Htop Ha | parts acc _ IH Htop Ha
                     | parts acc p _ IH H1 H2 H3 ];
      try rewrite normalizeArray_snoc, IH.
    + reflexivity.
    + now apply step_drop.
    + now apply step_pop.
    + rewrite step_parent_top by assumption. now rewrite Ha.
    + rewrite step_parent_top by assumption. now rewrite Ha.
    + now apply step_keep.
  - intros <-. induction parts as [|p parts IH] using rev_ind.
    + constructor.
    + rewrite normalizeArray_snoc.
      set (res := normalizeArray parts allow) in *.
      destruct (string_dec p "") as [-> | Hne].
      { rewrite step_drop by now left. apply pass_drop; auto. }
      destruct (string_dec p ".") as [-> | Hnd].
      { rewrite step_drop by now right. apply pass_drop; auto. }
      destruct (string_dec p "..") as [-> | Hnp].
      2:{ rewrite step_keep by assumption. now apply pass_keep. }
      destruct (snoc_or_nil res) as [Hnil | [res' [x Hres]]].
      { rewrite step_parent_top by now left.
        destruct allow eqn:Ha.
        - apply pass_above; auto.
        - apply pass_suppress; auto. }
      destruct (string_dec x "..") as [-> | Hx].
      { rewrite step_parent_top by (right; eauto).
        destruct allow eqn:Ha.
        - apply pass_above; eauto.
        - apply pass_suppress; eauto. }
      rewrite Hres, step_pop by assumption.
      apply pass_pop with (x := x); [now rewrite <- Hres | assumption].
Qed.

(** C3 as stated fails: with a relative [from] the joined path stays
    relative, while the resolved [to] is absolute. *)
Lemma C3_counterexample :
  relative None (VString "a") (VString "b") = Normal "../b"
  /\ join [VString "a"; VString "../b"] = Normal "b"
  /\ resolve None [VString "b"] = Normal "/b"
  /\ normalize "b" <> normalize "/b".
Proof. repeat split; try reflexivity. discriminate. Qed.

(** C3, amended.  With an absolute working directory, for an absolute
    [from] that does not end in "/" (or whose relative path to [to] is
    not empty, or that resolves to the root) and any [to]:
    normalize(join(from, relative(from, to))) = normalize(resolve(to)).
    And for any two path strings that resolve to identical paths,
    relative(from, to) is the empty string. *)
Theorem C3_relative_round_trip :
  forall (env : environment) (from to : string),
    isAbsolute (getCwd env) = true ->
    (isAbsolute from = true ->
     ends_with slash from = false
     \/ relative env (VString from) (VString to) <> Normal ""
     \/ resolve env [VString from] = Normal "/" ->
     exists r j t,
       relative env (VString from) (VString to) = Normal r
       /\ join [VString from; VString r] = Normal j
       /\ resolve env [VString to] = Normal t
       /\ normalize j = normalize t)
    /\ (resolve env [VString from] = resolve env [VString to] ->
        relative env (VString from) (VString to) = Normal "").
Proof.
  intros env from to Hcwd.
  destruct (resolve_single env from Hcwd) as (F & HnfF & HrF & HF).
  destruct (resolve_single env to Hcwd) as (T & HnfT & HrT & _).
  pose proof (normal_form_false_names HnfF) as HnF.
  pose proof (normal_form_false_names HnfT) as HnT.
  pose proof (names_are_segments HnF) as HsF.
  pose proof (names_are_segments HnT) as HsT.
  pose proof (relative_of_resolved env _ _ HrF HrT HsF HsT) as Hrel.
  set (k := samePartsLength F T) in *.
  set (out := (repeat ".." (List.length F - k) ++ skipn k T)%list) in *.
  assert (Hout : Forall segment out) by now apply relative_output_segments.
  split.
  - intros Ha Hside.
    exists (JS.join "/" out). eexists. exists ("/" ++ JS.join "/" T).
    split; [exact Hrel|]. split; [apply join_pair; now apply absolute_nonempty|].
    split; [exact HrT|]. f_equal.
    specialize (HF Ha). subst F.
    destruct (JS.truthy (JS.join "/" out)) eqn:Htr.
    + apply normalize_from_relative; try assumption.
      * intros E. rewrite E in Htr. discriminate.
      * now apply round_trip_segments.
    + assert (Hempty : JS.join "/" out = "")
        by (destruct (JS.join "/" out); [reflexivity | discriminate]).
      assert (Hnil : out = []) by now apply join_eq_empty.
      apply app_eq_nil in Hnil. destruct Hnil as [Hrep Hskip].
      destruct (samePartsLength_prefix (normalized_segments from) T)
        as (E & H1 & H2).
      fold k in E, H1, H2.
      assert (HkF : k = List.length (normalized_segments from)).
      { destruct (List.length (normalized_segments from) - k) eqn:D;
          [lia | discriminate]. }
      assert (HkT : k = List.length T).
      { apply (f_equal (@List.length string)) in Hskip.
        rewrite length_skipn in Hskip. simpl in Hskip. lia. }
      assert (HFT : normalized_segments from = T).
      { rewrite <- (firstn_all (normalized_segments from)), <- HkF, E, HkT.
        apply firstn_all. }
      rewrite normalize_assemble, Ha, HFT.
      destruct Hside as [Hend | [Hnot | Hroot]].
      * rewrite Hend. apply assemble_plain.
      * rewrite Hrel, Hempty in Hnot. congruence.
      * rewrite HrF, HFT in Hroot. injection Hroot as Hroot.
        apply join_eq_empty in Hroot; [|assumption].
        rewrite Hroot. reflexivity.
  - intros Heq. rewrite Hrel. f_equal.
    rewrite HrF, HrT in Heq. injection Heq as Heq.
    assert (HFT : F = T).
    { rewrite <- (trim_split_join HsF), <- (trim_split_join HsT), Heq.
      reflexivity. }
    unfold out, k. rewrite HFT, samePartsLength_refl, Nat.sub_diag, skipn_all.
    reflexivity.
Qed.

Lemma C3_relative_round_trip_witness :
  isAbsolute (getCwd (Some "/home/u")) = true
  /\ isAbsolute "/a/b/c" = true
  /\ ends_with slash "/a/b/c" = false
  /\ exists r j t,
       relative (Some "/home/u") (VString "/a/b/c") (VString "d/e") = Normal r
       /\ join [VString "/a/b/c"; VString r] = Normal j
       /\ resolve (Some "/home/u") [VString "d/e"] = Normal t
       /\ normalize j = normalize t.
Proof.
  split; [reflexivity|]. split; [reflexivity|]. split; [reflexivity|].
  apply (proj1 (C3_relative_round_trip (Some "/home/u") "/a/b/c" "d/e" eq_refl)).
  - reflexivity.
  - left. reflexivity.
Defined.

(** C4 as stated fails: "/a" is normalized and has no trailing slash,
    and format(parse("/a")) is "//a". *)
Lemma C4_counterexample :
  normalize "/a" = "/a" /\ ends_with slash "/a" = false
  /\ (o <- parse (VString "/a") ;; format o) = Normal "//a"
  /\ (o <- parse (VString "/a") ;; format o) <> Normal (normalize "/a").
Proof. repeat split; try reflexivity. discriminate. Qed.

(** C4, amended.  For every path string [p] that is already normalized,
    has no trailing slash and is not a single component directly under
    the root (as "/a" is), format(parse(p)) = normalize(p); in particular
    for p = "/a/b/c.txt". *)
Theorem C4_parse_format_round_trip :
  forall p : string,
    normalize p = p -> ends_with slash p = false ->
    in_root_directory p = false ->
    (o <- parse (VString p) ;; format o) = Normal (normalize p).
Proof.
  intros p Hn Hend Hroot.
  destruct (@normalized_decompose p Hn Hend Hroot) as (d & b & Hp & Hb & Hd).
  rewrite Hn, Hp. now apply format_parse_decomposed.
Qed.

Lemma C4_parse_format_round_trip_witness :
  normalize "/a/b/c.txt" = "/a/b/c.txt"
  /\ ends_with slash "/a/b/c.txt" = false
  /\ in_root_directory "/a/b/c.txt" = false
  /\ (o <- parse (VString "/a/b/c.txt") ;; format o) = Normal (normalize "/a/b/c.txt").
Proof.
  split; [reflexivity|]. split; [reflexivity|]. split; [reflexivity|].
  apply C4_parse_format_round_trip; reflexivity.
Defined.

(** C5. For every list of string arguments and a working directory that
    starts with "/", [resolve] returns a string whose first character is
    "/": isAbsolute(resolve(...)) is true.  Without a global [process]
    the working directory is "/", which qualifies. *)
Theorem C5_resolve_absolute :
  forall (env : environment) (args : list string),
    isAbsolute (getCwd env) = true ->
    exists s, resolve env (map VString args) = Normal s
              /\ isAbsolute s = true
              /\ JS.charAt s 0 = "/".
Proof.
  intros env args Hcwd. unfold resolve. rewrite <- map_rev.
  destruct (resolve_loop_strings env (rev args) "") as (rp & b & -> & Hb).
  rewrite (Hb Hcwd). simpl.
  eexists. split; [reflexivity|]. split; reflexivity.
Qed.

Lemma C5_resolve_absolute_witness :
  isAbsolute (getCwd None) = true
  /\ exists s, resolve None (map VString ["a"; "../b"; "c"]) = Normal s
               /\ isAbsolute s = true
               /\ JS.charAt s 0 = "/".
Proof.
  split; [reflexivity|].
  apply (C5_resolve_absolute None ["a"; "../b"; "c"]). reflexivity.
Defined.

(** C6. [normalize] is idempotent: normalize(normalize(p)) = normalize(p)
    for every path string [p], the trailing-slash-preserving and the
    "."-producing cases included. *)
Theorem C6_normalize_idempotent :
  forall p : string, normalize (normalize p) = normalize p.
Proof.
  intros p. rewrite (normalize_assemble p).
  apply normalize_assembled, normalized_segments_normal_form.
Qed.

(** C7 as stated fails: the component "..hidden" has two leading dots
    and no further dot, and its extension is ".hidden", not empty. *)
Lemma C7_counterexample :
  final_component "..hidden" = ".." ++ "hidden"
  /\ has_char dot "hidden" = false
  /\ extname "..hidden" = Normal (VString ".hidden")
  /\ extname "..hidden" <> Normal (VString "").
Proof. repeat split; try reflexivity. discriminate. Qed.

(** C7, amended.  [extname] returns the extension of the final path
    component (what precedes the trailing slashes and follows the last
    other "/").  The extension of a component is empty when the component
    has no dot, when its only dot is its first character, and when it is
    ".."; otherwise it is the suffix that starts at the last dot.  So
    extname("file") = "", extname(".gitignore") = "",
    extname("a.b.c") = ".c", and extname("..hidden") = ".hidden". *)
Theorem C7_extname_extension :
  (forall p, extname p = Normal (VString (extension (final_component p))))
  /\ (forall d b sl,
        d = "" \/ ends_with slash d = true ->
        segment b -> all_of is_slash sl = true ->
        final_component (d ++ b ++ sl) = b)
  /\ (forall p, all_of is_slash p = true -> final_component p = "")
  /\ (forall b, has_char dot b = false -> extension b = "")
  /\ (forall r, has_char dot r = false -> extension ("." ++ r) = "")
  /\ extension ".." = ""
  /\ (forall n s,
        n <> "" -> n ++ "." ++ s <> ".." -> has_char dot s = false ->
        extension (n ++ "." ++ s) = "." ++ s)
  /\ extname "file" = Normal (VString "")
  /\ extname ".gitignore" = Normal (VString "")
  /\ extname "a.b.c" = Normal (VString ".c")
  /\ extname "..hidden" = Normal (VString ".hidden").
Proof.
  split; [exact extname_spec|].
  split; [exact final_component_decompose|].
  split; [exact final_component_slashes|].
  split; [exact extension_no_dot|].
  split; [exact extension_leading_dot|].
  split; [reflexivity|].
  split; [exact extension_last_dot|].
  repeat split; reflexivity.
Qed.

Lemma C7_extname_extension_witness :
  final_component ("/x/" ++ "a.b.c" ++ "//") = "a.b.c"
  /\ extension ("a.b" ++ "." ++ "c") = "." ++ "c"
  /\ extension ("." ++ "gitignore") = "".
Proof.
  destruct C7_extname_extension as (_ & Hfinal & _ & _ & Hlead & _ & Hlast & _).
  split; [|split].
  - apply Hfinal.
    + right. reflexivity.
    + split; [discriminate | reflexivity].
    + reflexivity.
  - apply Hlast; [discriminate | discriminate | reflexivity].
  - apply Hlead. reflexivity.
Defined.

(** C8 as stated fails for [resolve]: an argument to the left of an
    absolute one is never looked at, so resolve(1, "/a") returns "/a". *)
Lemma C8_counterexample :
  isString (VNumber 1) = false
  /\ resolve None [VNumber 1; VString "/a"] = Normal "/a"
  /\ ~ JS.throws (resolve None [VNumber 1; VString "/a"]).
Proof.
  split; [reflexivity|]. split; [reflexivity|].
  intros [m H]. discriminate.
Qed.

(** C8, amended.  [join] throws a TypeError when any argument is not a
    string; [resolve] throws one when an argument is not a string and no
    argument to its right is an absolute path; [parse] throws one when
    its input is not a string; [format] throws one when its input is not
    an object, and when the [root] field is neither undefined, null nor a
    string.  The error is the completion of the call itself. *)
Theorem C8_type_errors :
  (forall args,
      Exists (fun v => isString v = false) args -> JS.throws (join args))
  /\ (forall env before v after,
        isString v = false ->
        Forall (fun s => isAbsolute s = false) after ->
        JS.throws (resolve env (before ++ v :: map VString after)))
  /\ (forall v,
        isString v = false ->
        parse v = Throw (TypeError
          ("Parameter 'pathString' must be a string, not " ++ typeof v)))
  /\ (forall v,
        isObject v = false ->
        format v = Throw (TypeError
          ("Parameter 'pathObject' must be an object, not " ++ typeof v)))
  /\ (forall props,
        get_prop props "root" <> VUndefined ->
        get_prop props "root" <> VNull ->
        isString (get_prop props "root") = false ->
        format (VObject props) = Throw (TypeError
          ("'pathObject.root' must be a string or undefined, not "
           ++ typeof (get_prop props "root")))).
Proof.
  split; [|split; [|split; [|split]]].
  - intros args H. unfold join.
    destruct (@join_loop_throws args "" H) as [m Hm]. rewrite Hm.
    eexists. reflexivity.
  - intros env before v after Hv Hafter. unfold resolve.
    rewrite rev_around, <- map_rev.
    destruct (@resolve_loop_throws env (rev after) v (rev before) ""
                (Forall_rev Hafter) Hv) as [m Hm].
    rewrite Hm. eexists. reflexivity.
  - intros v Hv. destruct v; try discriminate; reflexivity.
  - intros v Hv. destruct v; try discriminate; reflexivity.
  - intros props H1 H2 H3. unfold format. cbn [isObject negb prop].
    destruct (get_prop props "root"); try congruence; try discriminate;
      reflexivity.
Qed.

Lemma C8_type_errors_witness :
  JS.throws (join [VNumber 1; VString "a"])
  /\ JS.throws (resolve None [VString "/x"; VNull; VString "b"])
  /\ JS.throws (parse (VNumber 42))
  /\ JS.throws (format (VString "not-an-object"))
  /\ JS.throws (format (VObject [("root", VNumber 7); ("base", VString "x")])).
Proof.
  destruct C8_type_errors as (Hjoin & Hresolve & Hparse & Hformat & Hroot).
  split; [|split; [|split; [|split]]].
  - apply Hjoin. left. reflexivity.
  - apply (Hresolve None [VString "/x"] VNull ["b"]).
    + reflexivity.
    + repeat constructor.
  - eexists. apply Hparse. reflexivity.
  - eexists. apply Hformat. reflexivity.
  - eexists. apply Hroot; [discriminate | discriminate | reflexivity].
Defined.

(** C9. For every record whose fields are strings (an absent field
    counting as empty), [format] returns dir + "/" + base when [dir] is
    not empty and [base] alone otherwise; the [root] field does not
    appear in the output, so format of root "/" and base "x" is "x". *)
Theorem C9_format_output :
  forall (props : list (string * value)) (root dir base : string),
    string_field (get_prop props "root") root ->
    string_field (get_prop props "dir") dir ->
    string_field (get_prop props "base") base ->
    format (VObject props)
    = Normal (if JS.truthy dir then dir ++ "/" ++ base else base)
    /\ format (VObject [("root", VString "/"); ("base", VString "x")]) = Normal "x".
Proof.
  intros props root dir base Hroot Hdir Hbase.
  split; [|reflexivity].
  unfold format. cbn [isObject negb prop].
  destruct Hroot as [Hr | [Hr _]]; rewrite Hr;
    cbn [nullish isString typeof String.eqb Ascii.eqb Bool.eqb negb];
    (destruct Hdir as [Hd | [Hd ->]]; rewrite Hd;
     destruct Hbase as [Hb | [Hb ->]]; rewrite Hb;
     cbn [truthy_value to_string nullish JS.truthy];
     unfold sep; rewrite ?append_empty_r;
     try reflexivity;
     destruct dir; cbn [JS.truthy]; rewrite ?append_assoc, ?append_empty_r;
     reflexivity).
Qed.

Lemma C9_format_output_witness :
  format (VObject [("root", VString "/"); ("dir", VString "/home/u");
                   ("base", VString "f.txt"); ("ext", VString ".txt");
                   ("name", VString "f")])
  = Normal "/home/u/f.txt"
  /\ format (VObject [("root", VString "/"); ("base", VString "x")]) = Normal "x".
Proof.
  apply (@C9_format_output _ "/" "/home/u" "f.txt");
    left; reflexivity.
Defined.

(** C10. When the final component of [p] (the base that the split
    pattern captures) is exactly [ext] and [ext] is not empty,
    basename(p, ext) is the empty string: the whole base is stripped. *)
Theorem C10_basename_strips_whole_base :
  forall p ext : string,
    ext <> "" -> final_component p = ext ->
    (exists parts, posixSplitPath p = Normal parts
                   /\ at_index parts 2 = Some ext)
    /\ basename p (Some ext) = Normal (VString "").
Proof.
  intros p ext Hne Hbase. unfold basename.
  rewrite posixSplitPath_spec.
  destruct (split_path_parts p) as (root & d & ->).
  rewrite Hbase. split; [eexists; split; reflexivity|].
  cbn [JS.bind at_index nth receiver].
  destruct ext as [|c ext]; [congruence|]. cbn [JS.truthy JS.bind].
  rewrite substr_whole_from_end, String.eqb_refl, substr_nothing.
  reflexivity.
Qed.

Lemma C10_basename_strips_whole_base_witness :
  ".txt" <> "" /\ final_component "/a/b/.txt//" = ".txt"
  /\ basename "/a/b/.txt//" (Some ".txt") = Normal (VString "").
Proof.
  split; [discriminate|]. split; [reflexivity|].
  apply C10_basename_strips_whole_base; [discriminate | reflexivity].
Defined.

(** ** Further properties *)

(** X1. The split pattern matches every string: [posixSplitPath] never
    throws and returns four strings -- the root ("/" for an absolute
    path, else empty), the directory part, the base without "/" and the
    extension of the base -- such that root, directory part and base,
    followed by a run of slashes, give back the input.  Hence [parse]
    returns a record for every string. *)
Theorem X1_split_total :
  forall p : string,
    (exists root d b sl,
        posixSplitPath p
        = Normal [Some root; Some d; Some b; Some (extension b)]
        /\ root = (if isAbsolute p then "/" else "")
        /\ p = root ++ d ++ b ++ sl
        /\ has_char slash b = false
        /\ all_of is_slash sl = true)
    /\ exists o, parse (VString p) = Normal o.
Proof.
  intros p. split.
  - rewrite posixSplitPath_spec. unfold split_path.
    set (rest := if isAbsolute p then JS.substring_from p 1 else p).
    destruct (split_dir_concat rest) as (sl & Hrest & Hsl & Hb).
    destruct (split_dir rest) as [d b]. cbn [fst snd] in *.
    exists (if isAbsolute p then "/" else ""), d, b, sl.
    repeat split; try assumption.
    rewrite <- Hrest. unfold rest.
    destruct (isAbsolute p) eqn:Ha; [now apply absolute_head | reflexivity].
  - unfold parse. rewrite posixSplitPath_spec.
    destruct (split_path_parts p) as (root & d & ->).
    eexists. reflexivity.
Qed.

(** X2. [normalize] keeps absoluteness:
    isAbsolute(normalize(p)) = isAbsolute(p). *)
Theorem X2_normalize_keeps_absolute :
  forall p : string, isAbsolute (normalize p) = isAbsolute p.
Proof. exact normalize_keeps_absolute. Qed.

(** X3. With string arguments [join] normalizes the non-empty arguments
    joined by "/"; with no non-empty argument the result is ".". *)
Theorem X3_join_strings :
  (forall args : list string,
      join (map VString args)
      = Normal (normalize (JS.join "/" (filter JS.truthy args))))
  /\ join [] = Normal "."
  /\ join [VString "a"; VString ""; VString "b"; VString "../c"] = Normal "a/c".
Proof.
  split; [exact join_strings | split; reflexivity].
Qed.

(** X4. The round trip through [relative] needs an absolute [from]: with
    an absolute working directory and a relative [from], the path
    join(from, relative(from, to)) normalizes to a relative path, while
    resolve(to) normalizes to an absolute one.  A trailing slash of
    [from] survives too: for from = "/a/" and to = "/a" the two sides are
    "/a/" and "/a". *)
Theorem X4_round_trip_relative_from :
  (forall (env : environment) (from to : string),
      isAbsolute (getCwd env) = true -> isAbsolute from = false ->
      exists r j t,
        relative env (VString from) (VString to) = Normal r
        /\ join [VString from; VString r] = Normal j
        /\ resolve env [VString to] = Normal t
        /\ isAbsolute (normalize j) = false
        /\ isAbsolute (normalize t) = true)
  /\ relative None (VString "/a/") (VString "/a") = Normal ""
  /\ join [VString "/a/"; VString ""] = Normal "/a/"
  /\ resolve None [VString "/a"] = Normal "/a".
Proof.
  split; [|repeat split; reflexivity].
  intros env from to Hcwd Hrel.
  destruct (resolve_single env from Hcwd) as (F & HnfF & HrF & _).
  destruct (resolve_single env to Hcwd) as (T & HnfT & HrT & _).
  pose proof (names_are_segments (normal_form_false_names HnfF)) as HsF.
  pose proof (names_are_segments (normal_form_false_names HnfT)) as HsT.
  pose proof (relative_of_resolved env _ _ HrF HrT HsF HsT) as Hr.
  eexists. eexists. exists ("/" ++ JS.join "/" T).
  split; [exact Hr|]. split; [apply (join_strings [from; _])|].
  split; [exact HrT|]. split.
  - rewrite !normalize_keeps_absolute.
    apply joined_pair_relative; [assumption|].
    apply join_not_absolute. now apply relative_output_segments.
  - now rewrite normalize_keeps_absolute.
Qed.

Lemma X4_round_trip_relative_from_witness :
  exists r j t,
    relative (Some "/w") (VString "a") (VString "b") = Normal r
    /\ join [VString "a"; VString r] = Normal j
    /\ resolve (Some "/w") [VString "b"] = Normal t
    /\ isAbsolute (normalize j) = false
    /\ isAbsolute (normalize t) = true.
Proof.
  apply (proj1 X4_round_trip_relative_from (Some "/w") "a" "b"); reflexivity.
Defined.

(** X5. [dirname] never throws.  For a path made of a directory prefix,
    a non-empty last component and trailing slashes it returns "." when
    there is no prefix, "/" when the prefix is the root alone, and
    otherwise the prefix without its last slash; the empty string gives
    ".", and a non-empty run of slashes gives "/". *)
Theorem X5_dirname_cases :
  (forall b sl,
      segment b -> all_of is_slash sl = true ->
      dirname (b ++ sl) = Normal ".")
  /\ (forall b sl,
        segment b -> all_of is_slash sl = true ->
        dirname ("/" ++ b ++ sl) = Normal "/")
  /\ (forall d0 b sl,
        d0 <> "" -> segment b -> all_of is_slash sl = true ->
        dirname (d0 ++ "/" ++ b ++ sl) = Normal d0)
  /\ dirname "" = Normal "."
  /\ (forall p, p <> "" -> all_of is_slash p = true -> dirname p = Normal "/").
Proof.
  split; [exact dirname_top|].
  split; [exact dirname_root_child|].
  split; [exact dirname_of_dir|].
  split; [reflexivity | exact dirname_slashes].
Qed.

Lemma X5_dirname_cases_witness :
  dirname ("file.txt" ++ "/") = Normal "."
  /\ dirname ("/" ++ "etc" ++ "") = Normal "/"
  /\ dirname ("/a//b" ++ "/" ++ "c" ++ "//") = Normal "/a//b"
  /\ dirname "///" = Normal "/".
Proof.
  destruct X5_dirname_cases as (Htop & Hroot & Hdir & _ & Hslashes).
  split; [|split; [|split]].
  - apply Htop; [split; [discriminate | reflexivity] | reflexivity].
  - apply Hroot; [split; [discriminate | reflexivity] | reflexivity].
  - apply Hdir;
      [discriminate | split; [discriminate | reflexivity] | reflexivity].
  - apply Hslashes; [discriminate | reflexivity].
Defined.

(** X6. [basename] without a suffix (or with the empty suffix) returns
    the final component.  With a non-empty suffix [ext] it returns the
    final component without that suffix when the component ends with it,
    and the final component unchanged when it does not. *)
Theorem X6_basename_suffix :
  (forall p, basename p None = Normal (VString (final_component p)))
  /\ (forall p, basename p (Some "") = Normal (VString (final_component p)))
  /\ (forall p n ext,
        ext <> "" -> final_component p = n ++ ext ->
        basename p (Some ext) = Normal (VString n))
  /\ (forall p ext,
        ext <> "" -> (forall n, final_component p <> n ++ ext) ->
        basename p (Some ext) = Normal (VString (final_component p))).
Proof.
  split; [exact basename_plain|]. split; [|split].
  - intros p. unfold basename. rewrite posixSplitPath_spec.
    destruct (split_path_parts p) as (root & d & ->). reflexivity.
  - intros p n ext Hne Hbase.
    rewrite basename_with, Hbase by assumption.
    rewrite substr_suffix_of_append, String.eqb_refl by assumption.
    now rewrite substr_prefix_of_append.
  - intros p ext Hne Hnot. rewrite basename_with by assumption.
    destruct (String.eqb_spec
                (JS.substr (final_component p) (-1 * Z.of_nat (length ext)) None)
                ext) as [E | _]; [|reflexivity].
    exfalso.
    destruct (substr_from_end (final_component p) (length ext)) as [pre Hpre].
    rewrite E in Hpre. exact (Hnot pre Hpre).
Qed.

Lemma X6_basename_suffix_witness :
  basename "/a/file.tar.gz/" (Some ".gz") = Normal (VString "file.tar")
  /\ basename "/a/file.tar.gz/" (Some ".zip") = Normal (VString "file.tar.gz").
Proof.
  destruct X6_basename_suffix as (_ & _ & Hstrip & Hkeep).
  split.
  - apply Hstrip; [discriminate | reflexivity].
  - apply (Hkeep "/a/file.tar.gz/" ".zip"); [discriminate|].
    intros n H.
    apply (f_equal (fun s => JS.substr s (-1 * Z.of_nat (length ".zip")) None)) in H.
    rewrite substr_suffix_of_append in H by discriminate.
    discriminate.
Defined.

(** X7. One more trailing slash changes nothing for the functions built
    on the split pattern: for a non-empty path [p], [posixSplitPath],
    [parse], [dirname], [basename] and [extname] give the same result on
    p + "/" as on [p]. *)
Theorem X7_trailing_slash_ignored :
  forall p : string,
    p <> "" ->
    posixSplitPath (p ++ "/") = posixSplitPath p
    /\ parse (VString (p ++ "/")) = parse (VString p)
    /\ dirname (p ++ "/") = dirname p
    /\ (forall ext, basename (p ++ "/") ext = basename p ext)
    /\ extname (p ++ "/") = extname p.
Proof.
  intros p Hp.
  pose proof (split_path_snoc_slash Hp) as Hsplit.
  assert (H : posixSplitPath (p ++ "/") = posixSplitPath p)
    by (now rewrite !posixSplitPath_spec, Hsplit).
  split; [exact H|]. split; [now apply parse_via_split|].
  unfold dirname, basename, extname. rewrite H. repeat split.
Qed.

Lemma X7_trailing_slash_ignored_witness :
  "/a/b.c" <> ""
  /\ posixSplitPath ("/a/b.c" ++ "/") = posixSplitPath "/a/b.c"
  /\ parse (VString ("/a/b.c" ++ "/")) = parse (VString "/a/b.c")
  /\ dirname ("/a/b.c" ++ "/") = dirname "/a/b.c"
  /\ (forall ext, basename ("/a/b.c" ++ "/") ext = basename "/a/b.c" ext)
  /\ extname ("/a/b.c" ++ "/") = extname "/a/b.c".
Proof.
  split; [discriminate|].
  apply X7_trailing_slash_ignored. discriminate.
Defined.

(** X8. For every string [p], [parse] returns a record of five strings in
    which [base] is what [basename] returns, [ext] is what [extname]
    returns, [name] followed by [ext] is [base], [root] is "/" exactly for
    an absolute [p], and [dirname] returns [dir], or "." when [dir] is
    empty. *)
Theorem X8_parse_fields :
  forall p : string,
    exists root dir base ext name,
      parse (VString p)
      = Normal (VObject [("root", VString root); ("dir", VString dir);
                         ("base", VString base); ("ext", VString ext);
                         ("name", VString name)])
      /\ root = (if isAbsolute p then "/" else "")
      /\ name ++ ext = base
      /\ basename p None = Normal (VString base)
      /\ extname p = Normal (VString ext)
      /\ dirname p = Normal (if dir =? "" then "." else dir).
Proof.
  intros p.
  destruct (extension_is_suffix (final_component p)) as [n Hn].
  eexists _, _, (final_component p), (extension (final_component p)), n.
  split.
  { rewrite parse_unfold. cbv zeta. fold (final_component p).
    now rewrite (@slice_name _ _ n Hn). }
  split; [reflexivity|]. split; [now rewrite <- Hn|].
  split; [apply basename_plain|]. split; [apply extname_spec|].
  apply dirname_parse_dir.
Qed.

(** X9. When [p] ends in a non-empty component followed by any number of
    slashes, format(parse(p)) is [p] without those trailing slashes;
    except that a directory prefix that is the root alone comes back
    doubled: format(parse("/" + b)) is "//" + b. *)
Theorem X9_format_parse :
  forall d b sl : string,
    segment b -> all_of is_slash sl = true ->
    d = "" \/ ends_with slash d = true ->
    (o <- parse (VString (d ++ b ++ sl)) ;; format o)
    = Normal (if d =? "/" then "//" ++ b else d ++ b).
Proof. exact format_parse_general. Qed.

Lemma X9_format_parse_witness :
  segment "c.txt" /\ all_of is_slash "//" = true
  /\ (o <- parse (VString ("a//b/" ++ "c.txt" ++ "//")) ;; format o)
     = Normal ("a//b/" ++ "c.txt").
Proof.
  assert (Hb : segment "c.txt") by (split; [discriminate | reflexivity]).
  split; [exact Hb|]. split; [reflexivity|].
  apply (@X9_format_parse "a//b/" "c.txt" "//" Hb eq_refl).
  right. reflexivity.
Defined.

(** X10. For every array of strings (slashes or not) and either value of
    [allowAboveRoot], the output of [normalizeArray] is some ".." -- none
    when [allowAboveRoot] is false -- followed by segments that are
    neither empty, "." nor ".."; every element of the output occurs in the
    input, the output is no longer than the input, and normalizing the
    output again changes nothing. *)
Theorem X10_normalizeArray_invariants :
  forall (parts : list string) (allowAboveRoot : bool),
    (exists k names,
        normalizeArray parts allowAboveRoot = (repeat ".." k ++ names)%list
        /\ Forall plain_name names
        /\ (allowAboveRoot = false -> k = 0))
    /\ incl (normalizeArray parts allowAboveRoot) parts
    /\ List.length (normalizeArray parts allowAboveRoot) <= List.length parts
    /\ normalizeArray (normalizeArray parts allowAboveRoot) allowAboveRoot
       = normalizeArray parts allowAboveRoot.
Proof.
  intros parts allow.
  split; [apply normalizeArray_shape|].
  split; [apply normalizeArray_elements|].
  split; [apply normalizeArray_length|].
  destruct (normalizeArray_shape parts allow) as (k & names & -> & Hn & Hk).
  now apply normalizeArray_of_shape.
Qed.

(** X11. [resolve] never looks at what stands to the left of an absolute
    string argument: whatever those arguments are (strings or not), the
    result is that of the call without them. *)
Theorem X11_resolve_stops_at_absolute :
  forall (env : environment) (before after : list value) (a : string),
    isAbsolute a = true ->
    resolve env (before ++ VString a :: after)
    = resolve env (VString a :: after).
Proof.
  intros env before after a Ha. unfold resolve.
  rewrite rev_around. cbn [rev].
  now rewrite resolve_loop_stops.
Qed.

Lemma X11_resolve_stops_at_absolute_witness :
  isAbsolute "/srv" = true
  /\ resolve None ([VNull; VString "x"] ++ VString "/srv" :: [VString "../y"])
     = resolve None (VString "/srv" :: [VString "../y"]).
Proof.
  split; [reflexivity|].
  apply X11_resolve_stops_at_absolute. reflexivity.
Defined.

(** X12. With string arguments and an absolute working directory,
    [resolve] returns "/" followed by segments joined with "/", none of
    them empty, "." or ".." and none containing "/"; so the result has no
    trailing slash unless it is "/" itself, [normalize] leaves it as it
    is, and resolving it again gives it back. *)
Theorem X12_resolve_result_normalized :
  forall (env : environment) (args : list string),
    isAbsolute (getCwd env) = true ->
    exists r names,
      resolve env (map VString args) = Normal r
      /\ r = "/" ++ JS.join "/" names
      /\ Forall name_segment names
      /\ (r = "/" \/ ends_with slash r = false)
      /\ normalize r = r
      /\ resolve env [VString r] = Normal r.
Proof.
  intros env args Hcwd.
  destruct (resolve_strings env args Hcwd) as (T & Hnf & Hr).
  exists ("/" ++ JS.join "/" T), T.
  split; [exact Hr|]. split; [reflexivity|].
  split; [now apply normal_form_false_names|].
  split; [|split].
  - destruct T as [|x T]; [now left | right].
    pose proof (normal_form_segments Hnf) as Hseg.
    rewrite ends_with_append by now apply join_nonempty.
    now apply join_no_trailing_slash.
  - rewrite <- assemble_plain. now apply normalize_assembled.
  - now apply resolve_of_resolved.
Qed.

Lemma X12_resolve_result_normalized_witness :
  isAbsolute (getCwd (Some "/home/u")) = true
  /\ exists r names,
       resolve (Some "/home/u") (map VString ["a/./b"; ""; "../c/"]) = Normal r
       /\ r = "/" ++ JS.join "/" names
       /\ Forall name_segment names
       /\ (r = "/" \/ ends_with slash r = false)
       /\ normalize r = r
       /\ resolve (Some "/home/u") [VString r] = Normal r.
Proof.
  split; [reflexivity|].
  apply X12_resolve_result_normalized. reflexivity.
Defined.

(** X13. [resolve] skips empty string arguments, and with an absolute
    working directory resolving the arguments is resolving the working
    directory followed by the arguments. *)
Theorem X13_resolve_empty_and_cwd :
  forall (env : environment) (args : list string),
    resolve env (map VString (filter JS.truthy args))
    = resolve env (map VString args)
    /\ (isAbsolute (getCwd env) = true ->
        resolve env (map VString (getCwd env :: args))
        = resolve env (map VString args)).
Proof.
  intros env args. unfold resolve. split.
  - rewrite <- !map_rev, <- filter_rev.
    now rewrite resolve_loop_skips_empty.
  - intros Hcwd. cbn [map rev].
    now rewrite resolve_loop_cwd.
Qed.

Lemma X13_resolve_empty_and_cwd_witness :
  resolve (Some "/w") (map VString (filter JS.truthy [""; "a"; ""]))
  = resolve (Some "/w") (map VString [""; "a"; ""])
  /\ resolve (Some "/w") (map VString (getCwd (Some "/w") :: [""; "a"; ""]))
     = resolve (Some "/w") (map VString [""; "a"; ""]).
Proof.
  destruct (X13_resolve_empty_and_cwd (Some "/w") [""; "a"; ""]) as [H1 H2].
  split; [exact H1 | apply H2; reflexivity].
Defined.

(** X14. With an absolute working directory, for any two path strings:
    resolve(from, relative(from, to)) = resolve(to).  The relative path
    leads from [from] to [to] when it is resolved against [from]. *)
Theorem X14_resolve_relative_round_trip :
  forall (env : environment) (from to : string),
    isAbsolute (getCwd env) = true ->
    exists r,
      relative env (VString from) (VString to) = Normal r
      /\ resolve env [VString from; VString r] = resolve env [VString to].
Proof.
  intros env from to Hcwd.
  destruct (resolve_single env to Hcwd) as (T & HnfT & HrT & _).
  destruct (resolve_pair env from Hcwd) as (F & HnfF & HrF & Hpair).
  pose proof (normal_form_false_names HnfT) as HnT.
  pose proof (normal_form_false_names HnfF) as HnF.
  pose proof (names_are_segments HnT) as HsT.
  pose proof (names_are_segments HnF) as HsF.
  pose proof (round_trip_segments HnF HnT) as Hrt.
  pose proof (relative_of_resolved env _ _ HrF HrT HsF HsT) as Hrel.
  set (out := (repeat ".." (List.length F - samePartsLength F T)
               ++ skipn (samePartsLength F T) T)%list) in *.
  assert (Hout : Forall segment out) by now apply relative_output_segments.
  exists (JS.join "/" out). split; [exact Hrel|].
  rewrite Hpair by now apply join_not_absolute.
  rewrite HrT. f_equal. f_equal. f_equal.
  destruct (JS.truthy (JS.join "/" out)) eqn:Ht.
  - rewrite split_join; [exact Hrt | | now apply segments_slash_free].
    intros E. rewrite E in Ht. discriminate.
  - assert (Hnil : out = []).
    { apply join_eq_empty; [exact Hout|].
      destruct (JS.join "/" out); [reflexivity | discriminate]. }
    rewrite Hnil in Hrt. exact Hrt.
Qed.

Lemma X14_resolve_relative_round_trip_witness :
  isAbsolute (getCwd (Some "/w")) = true
  /\ exists r,
       relative (Some "/w") (VString "a/b/") (VString "../c") = Normal r
       /\ resolve (Some "/w") [VString "a/b/"; VString r]
          = resolve (Some "/w") [VString "../c"].
Proof.
  split; [reflexivity|].
  apply X14_resolve_relative_round_trip. reflexivity.
Defined.

(** X15. With an absolute working directory, the result of [relative] on
    two path strings is a relative path: some ".." followed by names
    (segments that are not empty, ".", ".." and hold no "/"), joined with
    "/"; it never starts with "/" and never ends with "/", and unless it
    is empty [normalize] leaves it as it is. *)
Theorem X15_relative_result_shape :
  forall (env : environment) (from to : string),
    isAbsolute (getCwd env) = true ->
    exists r k names,
      relative env (VString from) (VString to) = Normal r
      /\ r = JS.join "/" (repeat ".." k ++ names)
      /\ Forall name_segment names
      /\ isAbsolute r = false
      /\ ends_with slash r = false
      /\ (r = "" \/ normalize r = r).
Proof.
  intros env from to Hcwd.
  destruct (resolve_single env from Hcwd) as (F & HnfF & HrF & _).
  destruct (resolve_single env to Hcwd) as (T & HnfT & HrT & _).
  pose proof (normal_form_false_names HnfT) as HnT.
  pose proof (names_are_segments (normal_form_false_names HnfF)) as HsF.
  pose proof (names_are_segments HnT) as HsT.
  pose proof (relative_of_resolved env _ _ HrF HrT HsF HsT) as Hrel.
  set (k := List.length F - samePartsLength F T) in *.
  set (names := skipn (samePartsLength F T) T) in *.
  assert (Hnames : Forall name_segment names).
  { unfold names. rewrite <- (firstn_skipn (samePartsLength F T) T) in HnT.
    apply Forall_app in HnT. apply HnT. }
  assert (Hout : Forall segment (repeat ".." k ++ names))
    by now apply relative_output_segments.
  exists (JS.join "/" (repeat ".." k ++ names)), k, names.
  split; [exact Hrel|]. split; [reflexivity|]. split; [exact Hnames|].
  split; [now apply join_not_absolute|].
  split; [now apply join_no_trailing_slash|].
  destruct (repeat ".." k ++ names)%list as [|x l] eqn:E; [now left | right].
  assert (Hnf : normal_form (negb false) (x :: l)).
  { rewrite <- E. exists k, names. repeat split; auto. discriminate. }
  pose proof (@normalize_assembled false false (x :: l) Hnf) as H.
  unfold assemble in H. cbn [append] in H.
  now rewrite append_empty_r in H.
Qed.

Lemma X15_relative_result_shape_witness :
  isAbsolute (getCwd None) = true
  /\ exists r k names,
       relative None (VString "/a/b/c") (VString "/a/d/e/") = Normal r
       /\ r = JS.join "/" (repeat ".." k ++ names)
       /\ Forall name_segment names
       /\ isAbsolute r = false
       /\ ends_with slash r = false
       /\ (r = "" \/ normalize r = r).
Proof.
  split; [reflexivity|].
  apply X15_relative_result_shape. reflexivity.
Defined.

(** X16. [join] is associative on strings as long as the first group is
    not empty: when [a] or [b] is a non-empty string,
    join(join(a, b), c) = join(a, b, c). *)
Theorem X16_join_associative :
  forall a b c : string,
    a <> "" \/ b <> "" ->
    exists ab,
      join [VString a; VString b] = Normal ab
      /\ join [VString ab; VString c] = join [VString a; VString b; VString c].
Proof.
  intros a b c Hab.
  exists (normalize (JS.join "/" (filter JS.truthy [a; b]))).
  split; [exact (join_strings [a; b])|].
  set (x := JS.join "/" (filter JS.truthy [a; b])).
  change (join (map VString [normalize x; c]) = join (map VString [a; b; c])).
  rewrite !join_strings. f_equal.
  assert (Hx : x <> "").
  { unfold x. destruct a as [|a0 a], b as [|b0 b];
      cbn [filter JS.truthy JS.join String.concat];
      try discriminate.
    destruct Hab; congruence. }
  assert (Hleft : JS.join "/" (filter JS.truthy [normalize x; c])
                  = if JS.truthy c then normalize x ++ String slash c
                    else normalize x).
  { pose proof (normalize_nonempty x) as Hn.
    destruct (normalize x); [congruence|]. destruct c; reflexivity. }
  assert (Hright : JS.join "/" (filter JS.truthy [a; b; c])
                   = if JS.truthy c then x ++ String slash c else x).
  { unfold x. destruct a, b, c; try reflexivity;
      try (destruct Hab; congruence).
    cbn [filter JS.truthy JS.join String.concat].
    rewrite !append_assoc. reflexivity. }
  rewrite Hleft, Hright. destruct (JS.truthy c).
  - now apply normalize_of_normalized_prefix.
  - apply normalize_twice.
Qed.

Lemma X16_join_associative_witness :
  exists ab,
    join [VString "a/.."; VString ""] = Normal ab
    /\ join [VString ab; VString "../c/"]
       = join [VString "a/.."; VString ""; VString "../c/"].
Proof.
  apply X16_join_associative. left. discriminate.
Defined.

(** X17. For an absolute path string, whatever the working directory,
    [resolve] and [normalize] agree up to the trailing slash:
    normalize(p) is resolve(p), followed by "/" when [p] ends in "/" and
    resolve(p) is not the root "/". *)
Theorem X17_resolve_normalize_absolute :
  forall (env : environment) (p : string),
    isAbsolute p = true ->
    exists r,
      resolve env [VString p] = Normal r
      /\ normalize p
         = r ++ (if ends_with slash p && negb (r =? "/") then "/" else "").
Proof.
  intros env p Ha.
  exists ("/" ++ JS.join "/" (normalized_segments p)).
  split; [now apply resolve_absolute_single|].
  rewrite normalize_assemble, Ha. unfold assemble.
  pose proof (normal_form_segments (normalized_segments_normal_form p)) as Hseg.
  destruct (normalized_segments p) as [|x l].
  - cbn. now rewrite andb_false_r.
  - pose proof (join_nonempty Hseg) as Hj.
    destruct (JS.join "/" (x :: l)) as [|c j] eqn:E; [congruence|].
    replace ("/" ++ String c j =? "/") with false
      by (symmetry; apply String.eqb_neq; discriminate).
    cbn [negb]. rewrite andb_true_r.
    now rewrite append_assoc.
Qed.

Lemma X17_resolve_normalize_absolute_witness :
  isAbsolute "/a/../b//c/" = true
  /\ exists r,
       resolve (Some "/elsewhere") [VString "/a/../b//c/"] = Normal r
       /\ normalize "/a/../b//c/"
          = r ++ (if ends_with slash "/a/../b//c/" && negb (r =? "/")
                  then "/" else "").
Proof.
  split; [reflexivity|].
  apply X17_resolve_normalize_absolute. reflexivity.
Defined.
